(** * The inline link UI of the format library: boundary walk and link
      controller

    A shallow embedding of [getFormatBoundary] and of the [InlineLinkUI]
    handlers [onChangeLink] and [removeLink].  JavaScript values that the
    handlers compare or spread are kept dynamically typed ([jsval], objects as
    finite maps); the rich text value is a record; the callbacks [onChange],
    [speak], [stopAddingLink] and the state setter are recorded as a trace of
    events. *)

From stdpp Require Import base decidable option list gmap strings pretty.
From Stdlib Require Import ZArith Lia Ascii.

Local Open Scope string_scope.
Local Open Scope Z_scope.

(** ** JavaScript values *)

(** The primitive values that occur as properties of a link value or as
    attributes of a format. *)
Inductive jsval :=
  | JUndefined
  | JNull
  | JBool (b : bool)
  | JNum (n : Z)
  | JStr (s : string).

#[global] Instance jsval_eq_dec : EqDecision jsval.
Proof. solve_decision. Defined.

(** [a === b] on primitives. *)
Definition strict_eq (a b : jsval) : bool := bool_decide (a = b).

(** ToBoolean. *)
Definition truthy (v : jsval) : bool :=
  match v with
  | JUndefined | JNull => false
  | JBool b => b
  | JNum n => negb (n =? 0)
  | JStr s => negb (String.eqb s "")
  end.

(** [a || b]. *)
Definition js_or (a b : jsval) : jsval := if truthy a then a else b.

(** A plain object used as a property bag.  A key bound to [JUndefined] is
    present, which matters for the spread. *)
Abbreviation jsobj := (gmap string jsval).

(** [o.k]: a missing property reads as [undefined]. *)
Definition get (o : jsobj) (k : string) : jsval := default JUndefined (o !! k).

(** [{ ...a, ...b }]: the properties of [b] win. *)
Definition spread (a b : jsobj) : jsobj := b ∪ a.

(** ** Rich text values *)

(** A format instance.  JavaScript compares format objects by reference;
    [instance_id] stands for the reference, so that two formats built
    separately with the same type and attributes are different values, and
    [===] on formats is equality of these records. *)
Record Format := mkFormat {
  instance_id : nat;
  type : string;
  attributes : jsobj;
}.

#[global] Instance Format_eq_dec : EqDecision Format.
Proof. solve_decision. Defined.

(** [formats] is a sparse array with one slot per character: [None] is a hole
    (reads as [undefined]), [Some l] the stack of formats of the character.
    [start] and [end_] are the selection offsets; the link UI is mounted only
    while the rich text holds a selection, so both are numbers. *)
Record RichTextValue := mkValue {
  formats : list (option (list Format));
  text : string;
  start : Z;
  end_ : Z;
  activeFormats : list Format;
}.

(** [a[i]] for a number [i]: [undefined] outside of [0 .. length-1]. *)
Definition js_index {A} (a : list A) (i : Z) : option A :=
  if decide (0 <= i) then a !! Z.to_nat i else None.

(** [newFormats[i]]: a hole and an index out of range both read as
    [undefined]. *)
Definition formatsAt (newFormats : list (option (list Format))) (i : Z)
  : option (list Format) :=
  mjoin (js_index newFormats i).

(** ** getFormatBoundary *)

(** The result [{ start, end }]; [None] is [null]. *)
Record Boundary := mkBoundary {
  bstart : option Z;
  bend : option Z;
}.

#[global] Instance Boundary_eq_dec : EqDecision Boundary.
Proof. solve_decision. Defined.

(** lodash [find( collection, { type } )]: the first element whose [type]
    equals the given one; [undefined] on an [undefined] collection. *)
Definition find (collection : option (list Format)) (ty : string)
  : option Format :=
  l ← collection; snd <$> list_find (λ f, type f = ty) l.

(** [Array.prototype.indexOf]: first position holding the same reference,
    [-1] when there is none. *)
Definition indexOf (l : list Format) (x : Format) : Z :=
  match list_find (λ f, f = x) l with
  | Some (i, _) => Z.of_nat i
  | None => -1
  end.

(** The guard of both loops:
    [newFormats[ i ] && newFormats[ i ][ index ] === startFormat].
    An empty array is truthy, and reading past its end gives [undefined]. *)
Definition sameFormatAt (newFormats : list (option (list Format)))
    (index : Z) (startFormat : Format) (i : Z) : bool :=
  match formatsAt newFormats i with
  | Some l => bool_decide (js_index l index = Some startFormat)
  | None => false
  end.

(** [while ( guard startIndex ) startIndex--]. *)
Fixpoint walkBackwards (fuel : nat) (guard : Z → bool) (startIndex : Z) : Z :=
  match fuel with
  | O => startIndex
  | S fuel' =>
      if guard startIndex then walkBackwards fuel' guard (startIndex - 1)
      else startIndex
  end.

(** [while ( guard endIndex ) endIndex++]. *)
Fixpoint walkForwards (fuel : nat) (guard : Z → bool) (endIndex : Z) : Z :=
  match fuel with
  | O => endIndex
  | S fuel' =>
      if guard endIndex then walkForwards fuel' guard (endIndex + 1)
      else endIndex
  end.

(** The guard fails outside of the array, so each loop runs at most
    [length newFormats] times; one more unit of fuel lets it observe the
    failing guard (see [walkBackwards_spec] and [walkForwards_spec]). *)
Definition getFormatBoundary (value : RichTextValue) (format : Format)
    (startIndex endIndex : Z) : Boundary :=
  let newFormats := formats value in
  match find (formatsAt newFormats startIndex) (type format) with
  | None => {| bstart := None; bend := None |}
  | Some startFormat =>
      let index :=
        indexOf (default [] (formatsAt newFormats startIndex)) startFormat in
      let fuel := S (length newFormats) in
      let startIndex :=
        walkBackwards fuel (sameFormatAt newFormats index startFormat)
          startIndex in
      let endIndex := endIndex + 1 in
      let endIndex :=
        walkForwards fuel (sameFormatAt newFormats index startFormat)
          endIndex in
      {| bstart := Some (startIndex + 1); bend := Some endIndex |}
  end.

(** The call with the default arguments [value.start] and [value.end]. *)
Definition getFormatBoundary_default (value : RichTextValue) (format : Format)
  : Boundary :=
  getFormatBoundary value format (start value) (end_ value).

(** The format selector [{ type: 'core/link' }]. *)
Definition linkSelector : Format :=
  {| instance_id := 0; type := "core/link"; attributes := ∅ |}.

(** *** Small values used in the examples *)

Definition mkLink (id : nat) (url : string) : Format :=
  {| instance_id := id; type := "core/link";
     attributes := {[ "url" := JStr url ]} |}.

Definition bold : Format :=
  {| instance_id := 100; type := "core/bold"; attributes := ∅ |}.

Definition caretValue (fs : list (option (list Format))) (txt : string)
    (caret : Z) : RichTextValue :=
  {| formats := fs; text := txt; start := caret; end_ := caret;
     activeFormats := [] |}.

(** ** Runs of characters *)

(** [p] holds at every index of [[s, e)]. *)
Definition allBetween (p : Z → bool) (s e : Z) : bool :=
  forallb p (seqZ s (e - s)).

(** Character [i] has [L] somewhere in its format stack. *)
Definition carries (value : RichTextValue) (L : Format) (i : Z) : bool :=
  match formatsAt (formats value) i with
  | Some l => bool_decide (L ∈ l)
  | None => false
  end.

(** Character [i] has [L] at position [k] of its format stack. *)
Definition carriesAt (value : RichTextValue) (k : Z) (L : Format) (i : Z)
  : bool :=
  sameFormatAt (formats value) k L i.

(** Character [i] carries [L], and [L] is its only format of type [ty]. *)
Definition formattedBy (value : RichTextValue) (ty : string) (L : Format)
    (i : Z) : bool :=
  match formatsAt (formats value) i with
  | Some l =>
      bool_decide (L ∈ l) && forallb (λ f, bool_decide (type f = ty → f = L)) l
  | None => false
  end.

(** [[s, e)] is a maximal run of characters that carry the instance [L]. *)
Definition isRun (value : RichTextValue) (L : Format) (s e : Z) : bool :=
  bool_decide (s < e) && allBetween (carries value L) s e
  && negb (carries value L (s - 1)) && negb (carries value L e).

(** The instance located at [startIndex] together with its position in the
    format stack of that character. *)
Definition located (value : RichTextValue) (ty : string) (startIndex : Z)
    (L : Format) (k : Z) : Prop :=
  find (formatsAt (formats value) startIndex) ty = Some L
  ∧ k = indexOf (default [] (formatsAt (formats value) startIndex)) L.

(** ** The link controller: collaborators *)

(** The options object handed to [createLinkFormat]. *)
Record LinkFormatOptions := mkOptions {
  opt_url : jsval;
  opt_type : jsval;
  opt_id : jsval;
  opt_opensInNewWindow : jsval;
}.

(** The third argument of the rich text [replace]: a text or a value. *)
Inductive Replacement :=
  | ReplaceText (newText : jsval)
  | ReplaceValue (newValue : RichTextValue).

(** The functions that the component imports from other packages and from
    [./utils].  Their code is not part of the files at hand, so the handlers
    are defined over any implementation of them. *)
Module Deps.
Record t := mk {
  (** [__] of the i18n package. *)
  translate : string → string;
  prependHTTP : jsval → jsval;
  (** [isValidHref], as a truth value. *)
  isValidHref : jsval → bool;
  createLinkFormat : LinkFormatOptions → Format;
  stripHTML : string → string;
  (** [create( { text } )]. *)
  create : jsval → RichTextValue;
  (** [insert( value, valueToInsert )]. *)
  insert : RichTextValue → RichTextValue → RichTextValue;
  (** [isCollapsed], as a truth value. *)
  isCollapsed : RichTextValue → bool;
  (** [applyFormat( value, format, startIndex, endIndex )]. *)
  applyFormat : RichTextValue → Format → jsval → jsval → RichTextValue;
  (** [removeFormat( value, formatType )]. *)
  removeFormat : RichTextValue → string → RichTextValue;
  (** [slice( value, startIndex, endIndex )]; [None] is [null]. *)
  slice : RichTextValue → option Z → option Z → RichTextValue;
  (** [replace( value, pattern, replacement )]. *)
  replace : RichTextValue → string → Replacement → RichTextValue;
}.
End Deps.

(** ** Effects *)

(** The calls a handler makes on its surroundings, in order. *)
Inductive Event :=
  | SetNextLinkValue (next : option jsobj)
  | OnChange (newValue : RichTextValue)
  | StopAddingLink
  | Speak (message : string) (ariaLive : string).

Inductive Completion (A : Type) :=
  | Normal (a : A)
  | Throw (error : string).
Arguments Normal {A} a.
Arguments Throw {A} error.

(** A handler run: the events emitted so far and how the run ended. *)
Definition Eff (A : Type) : Type := list Event * Completion A.

#[global] Instance Eff_ret : MRet Eff := λ A a, ([], Normal a).

#[global] Instance Eff_bind : MBind Eff := λ A B k m,
  match m with
  | (tr, Normal a) => let '(tr', r) := k a in ((tr ++ tr')%list, r)
  | (tr, Throw e) => (tr, Throw e)
  end.

Definition emit (ev : Event) : Eff unit := ([ev], Normal tt).

Definition throw {A} (error : string) : Eff A := ([], Throw error).

Definition trace {A} (m : Eff A) : list Event := m.1.

Definition completion {A} (m : Eff A) : Completion A := m.2.

(** [v.length]: the length of a string (a string stands for the sequence of
    its code units), a [TypeError] on [undefined] and [null], [undefined] on
    the other primitives. *)
Definition lengthOf (v : jsval) : option jsval :=
  match v with
  | JStr s => Some (JNum (Z.of_nat (String.length s)))
  | JUndefined | JNull => None
  | JBool _ | JNum _ => Some JUndefined
  end.

Definition js_length (v : jsval) : Eff jsval :=
  match lengthOf v with
  | Some n => mret n
  | None => throw "TypeError"
  end.

(** [String( v )]. *)
Definition js_String (v : jsval) : jsval :=
  match v with
  | JStr s => JStr s
  | JNum n => JStr (pretty n)
  | JBool true => JStr "true"
  | JBool false => JStr "false"
  | JNull => JStr "null"
  | JUndefined => JStr "undefined"
  end.

(** ** InlineLinkUI *)

Record Props := mkProps {
  isActive : bool;
  activeAttributes : jsobj;
  addingLink : bool;
  value : RichTextValue;
}.

(** [textStart] and [textEnd]: the selection, or for a caret the boundary of
    the link format around it. *)
Definition textRange (D : Deps.t) (props : Props) : option Z * option Z :=
  if Deps.isCollapsed D (value props) then
    let boundary := getFormatBoundary_default (value props) linkSelector in
    (bstart boundary, bend boundary)
  else (Some (start (value props)), Some (end_ (value props))).

Definition richLinkTextValue (D : Deps.t) (props : Props) : RichTextValue :=
  Deps.slice D (value props) (textRange D props).1 (textRange D props).2.

(** The constant [text] of the component. *)
Definition linkText (D : Deps.t) (props : Props) : string :=
  Deps.stripHTML D (text (richLinkTextValue D props)).

(** [nextLinkValue] is the state of the component: [None] is [undefined],
    and spreading [undefined] adds nothing. *)
Definition linkValue (D : Deps.t) (props : Props)
    (nextLinkValue : option jsobj) : jsobj :=
  spread
    (<["url" := get (activeAttributes props) "url"]>
     (<["type" := get (activeAttributes props) "type"]>
      (<["id" := get (activeAttributes props) "id"]>
       (<["opensInNewTab" :=
            JBool (strict_eq (get (activeAttributes props) "target")
                     (JStr "_blank"))]>
        (<["text" := JStr (linkText D props)]> ∅)))))
    (default ∅ nextLinkValue).

Definition removeLink (D : Deps.t) (props : Props) : Eff unit :=
  let newValue := Deps.removeFormat D (value props) "core/link" in
  emit (OnChange newValue);;
  emit StopAddingLink;;
  emit (Speak (Deps.translate D "Link removed.") "assertive").

Definition didToggleSetting (linkValue nextValue : jsobj) : bool :=
  negb (strict_eq (get linkValue "opensInNewTab")
          (get nextValue "opensInNewTab"))
  && strict_eq (get linkValue "url") (get nextValue "url").

Definition didToggleSettingForNewLink (linkValue nextValue : jsobj) : bool :=
  didToggleSetting linkValue nextValue
  && strict_eq (get nextValue "url") JUndefined.

(** The argument of [createLinkFormat] in [onChangeLink]. *)
Definition linkFormatOptions (newUrl : jsval) (nextValue : jsobj)
  : LinkFormatOptions :=
  {| opt_url := newUrl;
     opt_type := get nextValue "type";
     opt_id :=
       if negb (strict_eq (get nextValue "id") JUndefined)
          && negb (strict_eq (get nextValue "id") JNull)
       then js_String (get nextValue "id")
       else JUndefined;
     opt_opensInNewWindow := get nextValue "opensInNewTab" |}.

(** [newValue.start = newValue.end; newValue.activeFormats = [];] *)
Definition collapseToEnd (newValue : RichTextValue) : RichTextValue :=
  {| formats := formats newValue;
     text := text newValue;
     start := end_ newValue;
     end_ := end_ newValue;
     activeFormats := [] |}.

Definition invalidWarning : string :=
  "Warning: the link has been inserted but may have errors. Please test it.".

Definition onChangeLink (D : Deps.t) (props : Props)
    (nextLinkValue : option jsobj) (nextValue : jsobj) : Eff unit :=
  let linkValue := linkValue D props nextLinkValue in
  let text := linkText D props in
  let nextValue := spread (default ∅ nextLinkValue) nextValue in
  let didToggleSetting := didToggleSetting linkValue nextValue in
  let didToggleSettingForNewLink :=
    didToggleSettingForNewLink linkValue nextValue in
  emit (SetNextLinkValue
          (if didToggleSettingForNewLink then Some nextValue else None));;
  if didToggleSettingForNewLink then mret tt
  else
    let newUrl := Deps.prependHTTP D (get nextValue "url") in
    let linkFormat :=
      Deps.createLinkFormat D (linkFormatOptions newUrl nextValue) in
    let newText :=
      js_or (js_or (get nextValue "text") (get nextValue "title")) newUrl in
    (if Deps.isCollapsed D (value props) && negb (isActive props) then
       len ← js_length newText;
       let toInsert :=
         Deps.applyFormat D (Deps.create D newText) linkFormat (JNum 0) len in
       emit (OnChange (Deps.insert D (value props) toInsert))
     else
       let newValue :=
         Deps.replace D (richLinkTextValue D props) text
           (ReplaceText newText) in
       len ← js_length newText;
       let newValue := Deps.applyFormat D newValue linkFormat (JNum 0) len in
       let newValue :=
         Deps.replace D (value props) text (ReplaceValue newValue) in
       emit (OnChange (collapseToEnd newValue)));;
    (if negb didToggleSetting then emit StopAddingLink else mret tt);;
    if negb (Deps.isValidHref D newUrl) then
      emit (Speak (Deps.translate D invalidWarning) "assertive")
    else if isActive props then
      emit (Speak (Deps.translate D "Link edited.") "assertive")
    else emit (Speak (Deps.translate D "Link inserted.") "assertive").

(** The state after a handler run: the last call of the setter wins. *)
Definition stateAfter (nextLinkValue : option jsobj) (tr : list Event)
  : option jsobj :=
  fold_left
    (λ st ev, match ev with SetNextLinkValue next => next | _ => st end)
    tr nextLinkValue.

(** The values passed to [onChange] during a run. *)
Definition committed (tr : list Event) : list RichTextValue :=
  omap (λ ev, match ev with OnChange v => Some v | _ => None end) tr.

(** The messages passed to [speak] during a run. *)
Definition spoken (tr : list Event) : list string :=
  omap (λ ev, match ev with Speak m _ => Some m | _ => None end) tr.

(** The value that [onChangeLink] hands to [onChange] when it commits, as a
    function of the link format, the new text and its length. *)
Definition committedValue (D : Deps.t) (props : Props) (linkFormat : Format)
    (newText len : jsval) : RichTextValue :=
  if Deps.isCollapsed D (value props) && negb (isActive props) then
    Deps.insert D (value props)
      (Deps.applyFormat D (Deps.create D newText) linkFormat (JNum 0) len)
  else
    collapseToEnd
      (Deps.replace D (value props) (linkText D props)
         (ReplaceValue
            (Deps.applyFormat D
               (Deps.replace D (richLinkTextValue D props) (linkText D props)
                  (ReplaceText newText))
               linkFormat (JNum 0) len))).

(** ** A reference implementation of the collaborators *)

Module SpecModel.

(** Modelled from the spec: [__] of the i18n package, missing here; the
    announcements are spoken as they are written in the component. *)
Definition translate (message : string) : string := message.

(** Modelled from the spec: the "scheme-bearing form" of a URL, missing
    here; a non-empty scheme followed by a colon. *)
Definition hasScheme (url : string) : bool :=
  match String.index 0%nat ":" url with
  | Some (S _) => true
  | _ => false
  end.

(** Modelled from the spec: [prependHTTP] of the url package, missing here;
    the "protocol normalization" that turns ["example.com"] into
    ["http://example.com"] and leaves an empty or scheme-bearing URL as it
    is. *)
Definition prependHTTP (url : jsval) : jsval :=
  match url with
  | JStr s =>
      if truthy url && negb (hasScheme s) then JStr ("http://" +:+ s)
      else url
  | _ => url
  end.

(** Modelled from the spec: [isValidHref] of [./utils], missing here; the
    URL "must have non-empty scheme-bearing form". *)
Definition isValidHref (href : jsval) : bool :=
  match href with
  | JStr s => truthy href && hasScheme s
  | _ => false
  end.

Definition setIf (c : bool) (k : string) (v : jsval) (o : jsobj) : jsobj :=
  if c then <[k := v]> o else o.

(** Modelled from the spec: [createLinkFormat] of [./utils], missing here;
    it "builds a link format from the merged settings": a format of the
    link type with the URL and, when set, the type, the id and the target
    of a link that opens in a new tab. *)
Definition createLinkFormat (options : LinkFormatOptions) : Format :=
  {| instance_id := 0;
     type := "core/link";
     attributes :=
       setIf (truthy (opt_opensInNewWindow options)) "target" (JStr "_blank")
         (setIf (truthy (opt_id options)) "id" (opt_id options)
            (setIf (truthy (opt_type options)) "type" (opt_type options)
               {[ "url" := opt_url options ]})) |}.

(** Modelled from the spec: [stripHTML] of the dom package, missing here;
    it "strips HTML from the sliced text": the tags, from ["<"] to [">"],
    are dropped. *)
Fixpoint stripTags (inTag : bool) (s : string) : string :=
  match s with
  | EmptyString => EmptyString
  | String c s' =>
      if inTag then stripTags (negb (Ascii.eqb c ">"%char)) s'
      else if Ascii.eqb c "<"%char then stripTags true s'
      else String c (stripTags false s')
  end.

Definition stripHTML (html : string) : string := stripTags false html.

(** Modelled from the spec: [create] of the rich text library, missing
    here; a value with the given text, no format and the caret at 0. *)
Definition create (newText : jsval) : RichTextValue :=
  match newText with
  | JStr s =>
      {| formats := replicate (String.length s) None; text := s;
         start := 0; end_ := 0; activeFormats := [] |}
  | _ =>
      {| formats := []; text := ""; start := 0; end_ := 0;
         activeFormats := [] |}
  end.

(** Modelled from the spec: [isCollapsed] of the rich text library, missing
    here; the selection is a caret. *)
Definition isCollapsed (value : RichTextValue) : bool :=
  bool_decide (start value = end_ value).

(** Modelled from the spec: [applyFormat] of the rich text library, missing
    here; "apply format over range": the format replaces the formats of
    its type on the characters of the range and is stacked on the
    others. *)
Definition applyFormat (value : RichTextValue) (format : Format)
    (startIndex endIndex : jsval) : RichTextValue :=
  match startIndex, endIndex with
  | JNum s, JNum e =>
      {| formats :=
           imap (λ i slot,
                   if bool_decide (s <= Z.of_nat i < e) then
                     Some (List.filter
                             (λ f, negb (String.eqb (type f) (type format)))
                             (default [] slot) ++ [format])%list
                   else slot) (formats value);
         text := text value; start := start value; end_ := end_ value;
         activeFormats := activeFormats value |}
  | _, _ => value
  end.

(** Modelled from the spec: [removeFormat] of the rich text library,
    missing here; it "strips the link format from the full value": the
    formats of the type are dropped on every character and from the active
    formats. *)
Definition removeFormat (value : RichTextValue) (formatType : string)
  : RichTextValue :=
  let keep := List.filter (λ f, negb (String.eqb (type f) formatType)) in
  {| formats := List.map (option_map keep) (formats value);
     text := text value; start := start value; end_ := end_ value;
     activeFormats := keep (activeFormats value) |}.

(** The characters of [[s, e)] with their formats. *)
Definition piece (value : RichTextValue) (s e : nat) : RichTextValue :=
  {| formats := take (e - s) (drop s (formats value));
     text := String.substring s (e - s) (text value);
     start := 0; end_ := 0; activeFormats := [] |}.

(** [piece] put in place of the characters of [[s, e)], the caret after
    it. *)
Definition splice (value : RichTextValue) (s e : nat)
    (piece : RichTextValue) : RichTextValue :=
  {| formats :=
       (take s (formats value) ++ formats piece ++ drop e (formats value))%list;
     text :=
       String.substring 0 s (text value) +:+ text piece
       +:+ String.substring e (String.length (text value) - e) (text value);
     start := Z.of_nat (s + String.length (text piece));
     end_ := Z.of_nat (s + String.length (text piece));
     activeFormats := activeFormats value |}.

(** Modelled from the spec: [slice] of the rich text library, missing here;
    the part of the value between two indices, [null] counting as 0. *)
Definition slice (value : RichTextValue) (startIndex endIndex : option Z)
  : RichTextValue :=
  piece value (Z.to_nat (default 0 startIndex))
    (Z.to_nat (default 0 endIndex)).

(** Modelled from the spec: [insert] of the rich text library, missing
    here; "insert text": the value to insert takes the place of the
    selection. *)
Definition insert (value valueToInsert : RichTextValue) : RichTextValue :=
  splice value (Z.to_nat (start value)) (Z.to_nat (end_ value))
    valueToInsert.

(** Modelled from the spec: [replace] of the rich text library, missing
    here; "replace range", the range being the first occurrence of the
    pattern, since the component passes a text; a replacement text takes
    the formats found at the start of the range. *)
Definition replace (value : RichTextValue) (pattern : string)
    (replacement : Replacement) : RichTextValue :=
  match String.index 0%nat pattern (text value) with
  | None => value
  | Some offset =>
      splice value offset (offset + String.length pattern)
        match replacement with
        | ReplaceValue newValue => newValue
        | ReplaceText (JStr s) =>
            {| formats :=
                 replicate (String.length s)
                   (mjoin (formats value !! offset));
               text := s; start := 0; end_ := 0; activeFormats := [] |}
        | ReplaceText _ => create JUndefined
        end
  end.

Definition deps : Deps.t :=
  {| Deps.translate := translate;
     Deps.prependHTTP := prependHTTP;
     Deps.isValidHref := isValidHref;
     Deps.createLinkFormat := createLinkFormat;
     Deps.stripHTML := stripHTML;
     Deps.create := create;
     Deps.insert := insert;
     Deps.isCollapsed := isCollapsed;
     Deps.applyFormat := applyFormat;
     Deps.removeFormat := removeFormat;
     Deps.slice := slice;
     Deps.replace := replace |}.

End SpecModel.

(** Some character of the value, or its active formats, holds a format of
    the given type. *)
Definition hasFormatType (value : RichTextValue) (formatType : string) : bool :=
  existsb (λ f, String.eqb (type f) formatType) (activeFormats value)
  || existsb
       (λ slot, existsb (λ f, String.eqb (type f) formatType) (default [] slot))
       (formats value).

(** *** Scenes used in the examples *)

(** ["see old docs"] with a link on ["old"] and the caret inside it. *)
Definition editProps (url : string) : Props :=
  {| isActive := true;
     activeAttributes := {[ "url" := JStr url ]};
     addingLink := false;
     value :=
       caretValue
         [None; None; None; None;
          Some [mkLink 1 url]; Some [mkLink 1 url]; Some [mkLink 1 url];
          None; None; None; None; None] "see old docs" 5 |}.

(** ["ab"] without any format, the caret between the two characters. *)
Definition insertProps : Props :=
  {| isActive := false;
     activeAttributes := ∅;
     addingLink := true;
     value := caretValue [None; None] "ab" 1 |}.

(** ** LinkControl *)

(** [o?.k] on a value that may be [undefined]. *)
Definition optGet (o : option jsobj) (k : string) : jsval :=
  match o with
  | Some v => get v k
  | None => JUndefined
  end.

(** The truth value of a prop that is an object or [undefined]. *)
Definition given {A} (o : option A) : bool :=
  match o with
  | Some _ => true
  | None => false
  end.

Module LinkControl.

(** The props that the handlers and the render conditions read.  [value] and
    [forceIsEditingLink] are [None] when the prop is [undefined]; [onChange]
    is the handler passed by the parent, run with its own events; [onRemove]
    tells whether the prop is given; [inputValue] is the prop that the
    component names [propInputValue]. *)
Record props := mkProps {
  value : option jsobj;
  onChange : jsobj → Eff unit;
  onRemove : bool;
  forceIsEditingLink : option bool;
  inputValue : jsval;
  hasTextControl : bool;
}.

(** The three state cells and the ref [isEndingEditWithFocus]. *)
Record state := mkState {
  internalInputValue : jsval;
  internalTextValue : jsval;
  isEditingLink : bool;
  isEndingEditWithFocus : bool;
}.

(** The calls of a handler or an effect: the events of the [onChange] prop
    as it runs, the state setters and the write to the ref. *)
Inductive event :=
  | FromOnChange (ev : Event)
  | SetIsEditingLink (editing : bool)
  | SetInternalTextValue (newText : jsval)
  | SetEndingEditWithFocus (focused : bool).

Definition eff (A : Type) : Type := list event * Completion A.

#[global] Instance eff_ret : MRet eff := λ A a, ([], Normal a).

#[global] Instance eff_bind : MBind eff := λ A B k m,
  match m with
  | (tr, Normal a) => let '(tr', r) := k a in ((tr ++ tr')%list, r)
  | (tr, Throw e) => (tr, Throw e)
  end.

Definition emit (ev : event) : eff unit := ([ev], Normal tt).

(** A call of the [onChange] prop from inside a handler: its events are
    part of the run, and so is its exception. *)
Definition call (m : Eff unit) : eff unit := (FromOnChange <$> m.1, m.2).

(** The initial values passed to [useState] and [useRef]. *)
Definition initialState (p : props) : state :=
  {| internalInputValue := js_or (optGet (value p) "url") (JStr "");
     internalTextValue := js_or (optGet (value p) "text") (JStr "");
     isEditingLink :=
       match forceIsEditingLink p with
       | Some forced => forced
       | None => negb (given (value p)) || negb (truthy (optGet (value p) "url"))
       end;
     isEndingEditWithFocus := false |}.

Definition currentInputValue (p : props) (st : state) : jsval :=
  js_or (inputValue p) (internalInputValue st).

(** The effect on [forceIsEditingLink]. *)
Definition syncForcedEditing (p : props) (st : state) : eff unit :=
  match forceIsEditingLink p with
  | Some forced =>
      if negb (bool_decide (forced = isEditingLink st)) then
        emit (SetIsEditingLink forced)
      else mret tt
  | None => mret tt
  end.

(** The effect that syncs the [text] of the value back into the state. *)
Definition syncText (p : props) (st : state) : eff unit :=
  if truthy (optGet (value p) "text")
     && negb (strict_eq (optGet (value p) "text") (internalTextValue st))
  then emit (SetInternalTextValue (optGet (value p) "text"))
  else mret tt.

(** [focusWithin] is what the DOM answers to
    [!! wrapperNode.current?.contains( ...activeElement )]. *)
Definition stopEditing (focusWithin : bool) : eff unit :=
  emit (SetEndingEditWithFocus focusWithin);;
  emit (SetIsEditingLink false).

Definition handleSelectSuggestion (p : props) (st : state)
    (focusWithin : bool) (updatedValue : jsobj) : eff unit :=
  call (onChange p (<["text" := internalTextValue st]> updatedValue));;
  stopEditing focusWithin.

Definition handleSubmitButton (p : props) (st : state) (focusWithin : bool)
  : eff unit :=
  (if negb (strict_eq (currentInputValue p st) (optGet (value p) "url"))
      || negb (strict_eq (internalTextValue st) (optGet (value p) "text"))
   then
     call (onChange p
             (<["url" := currentInputValue p st]>
                (<["text" := internalTextValue st]> ∅)))
   else mret tt);;
  stopEditing focusWithin.

(** [isCreatingPage] comes from the [useCreatePage] hook. *)
Definition shownUnlinkControl (p : props) (st : state) (isCreatingPage : bool)
  : bool :=
  onRemove p && given (value p) && negb (isEditingLink st)
  && negb isCreatingPage.

(** [value?.url && hasTextControl], as a truth value. *)
Definition showTextControl (p : props) : bool :=
  truthy (optGet (value p) "url") && hasTextControl p.

(** The condition under which the search input is rendered. *)
Definition showsSearchInput (p : props) (st : state) (isCreatingPage : bool)
  : bool :=
  (isEditingLink st || negb (given (value p))) && negb isCreatingPage.

(** The condition under which the link preview is rendered. *)
Definition showsLinkPreview (p : props) (st : state) (isCreatingPage : bool)
  : bool :=
  given (value p) && negb (isEditingLink st) && negb isCreatingPage.

(** The state after the calls of a run. *)
Definition update (st : state) (ev : event) : state :=
  match ev with
  | FromOnChange _ => st
  | SetIsEditingLink editing =>
      {| internalInputValue := internalInputValue st;
         internalTextValue := internalTextValue st;
         isEditingLink := editing;
         isEndingEditWithFocus := isEndingEditWithFocus st |}
  | SetInternalTextValue newText =>
      {| internalInputValue := internalInputValue st;
         internalTextValue := newText;
         isEditingLink := isEditingLink st;
         isEndingEditWithFocus := isEndingEditWithFocus st |}
  | SetEndingEditWithFocus focused =>
      {| internalInputValue := internalInputValue st;
         internalTextValue := internalTextValue st;
         isEditingLink := isEditingLink st;
         isEndingEditWithFocus := focused |}
  end.

Definition applyEvents (st : state) (tr : list event) : state :=
  fold_left update tr st.

(** The events of the [onChange] prop inside a run. *)
Definition callbackEvents (tr : list event) : list Event :=
  omap (λ ev, match ev with FromOnChange e => Some e | _ => None end) tr.

End LinkControl.

(** The [LinkControl] element that [InlineLinkUI] renders. *)
Definition linkControlProps (D : Deps.t) (props : Props)
    (nextLinkValue : option jsobj) : LinkControl.props :=
  {| LinkControl.value := Some (linkValue D props nextLinkValue);
     LinkControl.onChange := onChangeLink D props nextLinkValue;
     LinkControl.onRemove := true;
     LinkControl.forceIsEditingLink := Some (addingLink props);
     LinkControl.inputValue := JStr "";
     LinkControl.hasTextControl := true |}.

(** The lookup at character [i] finds the instance [L], at position [k] of
    the format stack of that character. *)
Definition locatedAt (value : RichTextValue) (ty : string) (k : Z)
    (L : Format) (i : Z) : bool :=
  bool_decide (find (formatsAt (formats value) i) ty = Some L)
  && bool_decide
       (k = indexOf (default [] (formatsAt (formats value) i)) L).






Example boundary_plain_run :
  getFormatBoundary_default
    (caretValue [None; Some [mkLink 1 "u"]; Some [mkLink 1 "u"];
                 Some [mkLink 1 "u"]; None] "abcde" 2) linkSelector
  = {| bstart := Some 1; bend := Some 4 |}.
Proof. vm_compute. reflexivity. Qed.

Example boundary_outside :
  getFormatBoundary_default
    (caretValue [None; Some [mkLink 1 "u"]; None] "abc" 2) linkSelector
  = {| bstart := None; bend := None |}.
Proof. vm_compute. reflexivity. Qed.

(** ** The two loops *)

Section Walks.
Variable guard : Z → bool.
Variable n : Z.
Hypothesis guard_in_range : ∀ i, guard i = true → 0 <= i < n.

Lemma walkBackwards_spec (fuel : nat) (i : Z) :
  (Z.to_nat (i + 1) < fuel)%nat →
  walkBackwards fuel guard i <= i
  ∧ (∀ j, walkBackwards fuel guard i < j <= i → guard j = true)
  ∧ guard (walkBackwards fuel guard i) = false.
Proof.
  revert i. induction fuel as [|fuel IH]; intros i Hfuel; [lia|].
  cbn [walkBackwards]. destruct (guard i) eqn:Hg.
  - pose proof (guard_in_range _ Hg) as Hi.
    destruct (IH (i - 1)) as (Hle & Hall & Hex); [lia|].
    split; [lia|]. split; [|exact Hex].
    intros j Hj. destruct (decide (j = i)) as [->|]; [exact Hg|].
    apply Hall. lia.
  - split; [lia|]. split; [intros j Hj; lia | exact Hg].
Qed.

Lemma walkForwards_spec (fuel : nat) (j : Z) :
  (0 < fuel)%nat →
  (0 <= j → (Z.to_nat (n - j) < fuel)%nat) →
  j <= walkForwards fuel guard j
  ∧ (∀ i, j <= i < walkForwards fuel guard j → guard i = true)
  ∧ guard (walkForwards fuel guard j) = false.
Proof.
  revert j. induction fuel as [|fuel IH]; intros j Hpos Hfuel; [lia|].
  cbn [walkForwards]. destruct (guard j) eqn:Hg.
  - pose proof (guard_in_range _ Hg) as Hj.
    destruct (IH (j + 1)) as (Hle & Hall & Hex); [lia | lia |].
    split; [lia|]. split; [|exact Hex].
    intros i Hi. destruct (decide (i = j)) as [->|]; [exact Hg|].
    apply Hall. lia.
  - split; [lia|]. split; [intros i Hi; lia | exact Hg].
Qed.

End Walks.

(** ** Array reads *)

Lemma js_index_range {A} (a : list A) (i : Z) (x : A) :
  js_index a i = Some x → 0 <= i < Z.of_nat (length a).
Proof.
  unfold js_index. case_decide; [|discriminate].
  intros Hx. apply lookup_lt_Some in Hx. lia.
Qed.

Lemma formatsAt_range fs i l :
  formatsAt fs i = Some l → 0 <= i < Z.of_nat (length fs).
Proof.
  unfold formatsAt. destruct (js_index fs i) as [c|] eqn:Hc; [|discriminate].
  intros _. eapply js_index_range, Hc.
Qed.

Lemma sameFormatAt_range fs k L i :
  sameFormatAt fs k L i = true → 0 <= i < Z.of_nat (length fs).
Proof.
  unfold sameFormatAt. destruct (formatsAt fs i) as [l|] eqn:Hl; [|discriminate].
  intros _. eapply formatsAt_range, Hl.
Qed.

Lemma sameFormatAt_true fs k L i :
  sameFormatAt fs k L i = true ↔
  ∃ l, formatsAt fs i = Some l ∧ js_index l k = Some L.
Proof.
  unfold sameFormatAt. destruct (formatsAt fs i) as [l|].
  - rewrite bool_decide_eq_true. split; [eauto|].
    intros (l' & [= <-] & H). exact H.
  - split; [discriminate|]. intros (l' & [=] & _).
Qed.

(** ** find and indexOf *)

Lemma find_Some c ty L :
  find c ty = Some L →
  ∃ l p, c = Some l ∧ l !! p = Some L ∧ type L = ty
         ∧ ∀ j y, l !! j = Some y → (j < p)%nat → type y ≠ ty.
Proof.
  unfold find. destruct c as [l|]; [|discriminate]. cbn.
  destruct (list_find _ l) as [[p y]|] eqn:Hf; [|discriminate].
  intros [= <-]. apply list_find_Some in Hf as (Hp & Hty & Hmin).
  exists l, p. eauto.
Qed.

Lemma find_None c ty :
  find c ty = None ↔ ∀ l, c = Some l → ∀ f, f ∈ l → type f ≠ ty.
Proof.
  unfold find. destruct c as [l|]; cbn.
  - destruct (list_find _ l) as [[p y]|] eqn:Hf; cbn.
    + apply list_find_Some in Hf as (Hp & Hty & _). split; [discriminate|].
      intros H. exfalso. eapply H; [reflexivity| |exact Hty].
      eapply list_elem_of_lookup_2, Hp.
    + split; [|reflexivity]. intros _ l' [= <-] f Hin Hty.
      apply list_find_None in Hf. rewrite Forall_forall in Hf.
      exact (Hf f Hin Hty).
  - split; [|reflexivity]. intros _ l' [=].
Qed.

(** [indexOf] returns the position at which [find] found the format. *)
Lemma indexOf_find l p L :
  l !! p = Some L →
  (∀ j y, l !! j = Some y → (j < p)%nat → y ≠ L) →
  indexOf l L = Z.of_nat p.
Proof.
  intros Hp Hmin. unfold indexOf.
  destruct (list_find _ l) as [[q y]|] eqn:Hf.
  - apply list_find_Some in Hf as (Hq & -> & Hqmin).
    destruct (Nat.lt_trichotomy q p) as [Hlt|[->|Hgt]]; [|reflexivity|].
    + exfalso. exact (Hmin q L Hq Hlt eq_refl).
    + exfalso. exact (Hqmin p L Hp Hgt eq_refl).
  - apply list_find_None in Hf. rewrite Forall_forall in Hf.
    exfalso. eapply Hf; [|reflexivity]. eapply list_elem_of_lookup_2, Hp.
Qed.

Lemma find_indexOf c ty L :
  find c ty = Some L →
  ∃ l, c = Some l ∧ type L = ty
       ∧ 0 <= indexOf l L
       ∧ js_index l (indexOf l L) = Some L
       ∧ ∀ j y, js_index l j = Some y → j < indexOf l L → type y ≠ ty.
Proof.
  intros (l & p & -> & Hp & Hty & Hmin)%find_Some.
  assert (indexOf l L = Z.of_nat p) as Hidx.
  { apply indexOf_find; [exact Hp|].
    intros j y Hj Hlt ->. exact (Hmin j L Hj Hlt Hty). }
  exists l. rewrite Hidx. split; [reflexivity|]. split; [exact Hty|].
  split; [lia|]. split.
  - unfold js_index. case_decide; [|lia]. by rewrite Nat2Z.id.
  - intros j y Hj Hlt. unfold js_index in Hj. case_decide; [|discriminate].
    eapply Hmin; [exact Hj|]. lia.
Qed.

(** ** What getFormatBoundary returns *)

Lemma located_guard value ty s L k :
  located value ty s L k →
  type L = ty ∧ sameFormatAt (formats value) k L s = true.
Proof.
  intros [Hfind ->].
  destruct (find_indexOf _ _ _ Hfind) as (l & Hl & Hty & _ & Hk & _).
  split; [exact Hty|]. apply sameFormatAt_true. exists l.
  rewrite Hl. cbn. eauto.
Qed.

Lemma getFormatBoundary_null value format s e :
  find (formatsAt (formats value) s) (type format) = None →
  getFormatBoundary value format s e = {| bstart := None; bend := None |}.
Proof. intros H. unfold getFormatBoundary. by rewrite H. Qed.

Lemma getFormatBoundary_found value format s e L k :
  located value (type format) s L k →
  ∃ s' e',
    getFormatBoundary value format s e
      = {| bstart := Some s'; bend := Some e' |}
    ∧ s' <= s ∧ e < e'
    ∧ (∀ j, s' <= j <= s → sameFormatAt (formats value) k L j = true)
    ∧ (∀ j, e < j < e' → sameFormatAt (formats value) k L j = true)
    ∧ sameFormatAt (formats value) k L (s' - 1) = false
    ∧ sameFormatAt (formats value) k L e' = false.
Proof.
  intros Hloc. destruct (located_guard _ _ _ _ _ Hloc) as [_ Hs].
  destruct Hloc as [Hfind Hk].
  pose proof (sameFormatAt_range _ _ _ _ Hs) as Hrange.
  unfold getFormatBoundary. rewrite Hfind. cbv zeta. rewrite <- Hk.
  set (g := sameFormatAt (formats value) k L) in *.
  set (n := Z.of_nat (length (formats value))) in *.
  assert (∀ i, g i = true → 0 <= i < n) as Hg
    by (intros i; apply sameFormatAt_range).
  destruct (walkBackwards_spec g n Hg (S (length (formats value))) s)
    as (Hle & Hall & Hex); [lia|].
  destruct (walkForwards_spec g n Hg (S (length (formats value))) (e + 1))
    as (Hle' & Hall' & Hex'); [lia | lia |].
  eexists _, _. split; [reflexivity|].
  assert (walkBackwards (S (length (formats value))) g s < s) as Hlt.
  { destruct (decide (walkBackwards (S (length (formats value))) g s = s))
      as [Heq|]; [|lia]. rewrite Heq in Hex. congruence. }
  split; [lia|]. split; [lia|]. split; [intros j Hj; apply Hall; lia|].
  split; [intros j Hj; apply Hall'; lia|].
  split; [|exact Hex']. by replace (_ + 1 - 1) with
    (walkBackwards (S (length (formats value))) g s) by lia.
Qed.

Lemma getFormatBoundary_inv value format s e s' e' :
  getFormatBoundary value format s e
    = {| bstart := Some s'; bend := Some e' |} →
  ∃ L k, located value (type format) s L k.
Proof.
  unfold getFormatBoundary, located.
  destruct (find _ _) as [L|]; [|discriminate]. intros _. eauto.
Qed.

(** Conversely the guards around a range pin the result down. *)
Lemma getFormatBoundary_exact value format s e L k s' e' :
  located value (type format) s L k →
  s' <= s → e < e' →
  (∀ j, s' <= j <= s → sameFormatAt (formats value) k L j = true) →
  (∀ j, e < j < e' → sameFormatAt (formats value) k L j = true) →
  sameFormatAt (formats value) k L (s' - 1) = false →
  sameFormatAt (formats value) k L e' = false →
  getFormatBoundary value format s e
    = {| bstart := Some s'; bend := Some e' |}.
Proof.
  intros Hloc Hs He Hback Hfwd Hstop Hstop'.
  destruct (getFormatBoundary_found value format s e L k Hloc)
    as (s1 & e1 & -> & Hs1 & He1 & Hb1 & Hf1 & Hx1 & Hx1').
  f_equal; f_equal.
  - destruct (Z.lt_trichotomy s1 s') as [Hlt|[Heq|Hgt]]; [|exact Heq|].
    + rewrite Hb1 in Hstop by lia. discriminate.
    + rewrite Hback in Hx1 by lia. discriminate.
  - destruct (Z.lt_trichotomy e1 e') as [Hlt|[Heq|Hgt]]; [|exact Heq|].
    + rewrite Hfwd in Hx1' by lia. discriminate.
    + rewrite Hf1 in Hstop' by lia. discriminate.
Qed.

(** ** Runs *)

Lemma allBetween_true (p : Z → bool) (s e : Z) :
  allBetween p s e = true ↔ ∀ i, s <= i < e → p i = true.
Proof.
  unfold allBetween. rewrite <- Is_true_true, forallb_True, Forall_forall.
  split.
  - intros H i Hi. apply Is_true_true, H, elem_of_seqZ. lia.
  - intros H i Hi%elem_of_seqZ. apply Is_true_true, H. lia.
Qed.

Lemma formattedBy_true value ty L i :
  formattedBy value ty L i = true ↔
  ∃ l, formatsAt (formats value) i = Some l ∧ L ∈ l
       ∧ ∀ f, f ∈ l → type f = ty → f = L.
Proof.
  unfold formattedBy. destruct (formatsAt _ i) as [l|].
  - rewrite andb_true_iff, bool_decide_eq_true, <- Is_true_true,
      forallb_True, Forall_forall. split.
    + intros [Hin Hall]. exists l. split; [reflexivity|]. split; [exact Hin|].
      intros f Hf. specialize (Hall f Hf). by apply bool_decide_unpack in Hall.
    + intros (l' & [= <-] & Hin & Hall). split; [exact Hin|].
      intros f Hf. apply bool_decide_pack. by apply Hall.
  - split; [discriminate|]. intros (l & [=] & _).
Qed.

Lemma carriesAt_carries value k L i :
  carriesAt value k L i = true → carries value L i = true.
Proof.
  unfold carriesAt, carries. intros (l & -> & Hk)%sameFormatAt_true.
  apply bool_decide_eq_true. unfold js_index in Hk.
  case_decide; [|discriminate]. eapply list_elem_of_lookup_2, Hk.
Qed.

(** On a character whose only format of the type is [L], the lookup finds
    [L]. *)
Lemma formattedBy_located value ty L i :
  type L = ty →
  formattedBy value ty L i = true →
  ∃ k, located value ty i L k.
Proof.
  intros Hty (l & Hl & Hin & Honly)%formattedBy_true.
  destruct (find (formatsAt (formats value) i) ty) as [L'|] eqn:Hfind.
  - destruct (find_Some _ _ _ Hfind) as (l' & p & Hl' & Hp & Hty' & _).
    rewrite Hl in Hl'. injection Hl' as <-.
    assert (L' = L) as -> by (eapply Honly; [eapply list_elem_of_lookup_2|]; eauto).
    eexists. split; [exact Hfind | reflexivity].
  - exfalso. rewrite find_None in Hfind. exact (Hfind l Hl L Hin Hty).
Qed.

(** ** Properties of getFormatBoundary *)

(** C5.  When the character at the initial start index has no format of the
    target type (in particular when it has no format stack at all, or the
    index lies outside of the value), [getFormatBoundary] returns
    [{ start: null, end: null }]; the function is total, so nothing is
    thrown. *)
Theorem getFormatBoundary_not_inside value format startIndex endIndex :
  (∀ l, formatsAt (formats value) startIndex = Some l →
        ∀ f, f ∈ l → type f ≠ type format) →
  getFormatBoundary value format startIndex endIndex
    = {| bstart := None; bend := None |}.
Proof.
  intros H. apply getFormatBoundary_null. by apply find_None.
Qed.

Lemma getFormatBoundary_not_inside_witness :
  getFormatBoundary (caretValue [Some [bold]; Some [mkLink 1 "u"]] "ab" 0)
    linkSelector 0 0
    = {| bstart := None; bend := None |}.
Proof.
  apply getFormatBoundary_not_inside.
  intros l Hl f Hf. vm_compute in Hl. injection Hl as <-.
  apply list_elem_of_singleton in Hf as ->. discriminate.
Defined.

(** C6.  A boundary that is found contains the selection it was asked
    about: [start' <= start <= end <= end']. *)
Theorem getFormatBoundary_contains_selection value format s e s' e' :
  s <= e →
  getFormatBoundary value format s e
    = {| bstart := Some s'; bend := Some e' |} →
  s' <= s ∧ s <= e ∧ e <= e'.
Proof.
  intros Hse Hres.
  destruct (getFormatBoundary_inv _ _ _ _ _ _ Hres) as (L & k & Hloc).
  destruct (getFormatBoundary_found value format s e L k Hloc)
    as (s1 & e1 & Heq & Hs1 & He1 & _).
  rewrite Hres in Heq. injection Heq as -> ->. lia.
Qed.

Lemma getFormatBoundary_contains_selection_witness :
  getFormatBoundary
    (caretValue [None; Some [mkLink 1 "u"]; Some [mkLink 1 "u"];
                 Some [mkLink 1 "u"]; None] "abcde" 2)
    linkSelector 2 2
  = {| bstart := Some 1; bend := Some 4 |}
  ∧ (1 <= 2 ∧ 2 <= 2 ∧ 2 <= 4).
Proof.
  split; [vm_compute; reflexivity|].
  apply (getFormatBoundary_contains_selection
           (caretValue [None; Some [mkLink 1 "u"]; Some [mkLink 1 "u"];
                        Some [mkLink 1 "u"]; None] "abcde" 2)
           linkSelector 2 2 1 4); [lia | vm_compute; reflexivity].
Defined.

(** C10.  The walk is tied to one position of the format stack.  With [L] the
    instance located at the initial start index and [k] its position there,
    every character the walk adds to the range carries [L] at position [k],
    and a character whose stack does not hold [L] at position [k] stops the
    walk and stays outside of the range, also when [L] sits elsewhere in its
    stack. *)
Theorem getFormatBoundary_fixed_position value format s e s' e' :
  getFormatBoundary value format s e
    = {| bstart := Some s'; bend := Some e' |} →
  ∃ L k,
    located value (type format) s L k
    ∧ (∀ j, s' <= j <= s → carriesAt value k L j = true)
    ∧ (∀ j, e < j < e' → carriesAt value k L j = true)
    ∧ (∀ j, j <= s → carriesAt value k L j = false → j < s')
    ∧ (∀ j, e < j → carriesAt value k L j = false → e' <= j).
Proof.
  intros Hres.
  destruct (getFormatBoundary_inv _ _ _ _ _ _ Hres) as (L & k & Hloc).
  destruct (getFormatBoundary_found value format s e L k Hloc)
    as (s1 & e1 & Heq & Hs1 & He1 & Hback & Hfwd & _ & _).
  rewrite Hres in Heq. injection Heq as -> ->.
  exists L, k. unfold carriesAt. split; [exact Hloc|].
  split; [exact Hback|]. split; [exact Hfwd|]. split.
  - intros j Hj Hno. destruct (decide (j < s1)) as [|Hge]; [assumption|].
    rewrite Hback in Hno by lia. discriminate.
  - intros j Hj Hno. destruct (decide (e1 <= j)) as [|Hlt]; [assumption|].
    rewrite Hfwd in Hno by lia. discriminate.
Qed.

(** The instance sits at position 0 in the first character and at position 1
    in the second one: the walk that starts in the second character records
    position 1 and leaves the first character out. *)
Lemma getFormatBoundary_fixed_position_witness :
  let value :=
    caretValue [Some [mkLink 1 "u"]; Some [bold; mkLink 1 "u"]] "ab" 1 in
  carries value (mkLink 1 "u") 0 = true
  ∧ ∃ L k,
      located value "core/link" 1 L k
      ∧ (∀ j, 1 <= j <= 1 → carriesAt value k L j = true)
      ∧ (∀ j, 1 < j < 2 → carriesAt value k L j = true)
      ∧ (∀ j, j <= 1 → carriesAt value k L j = false → j < 1)
      ∧ (∀ j, 1 < j → carriesAt value k L j = false → 2 <= j).
Proof.
  cbv zeta. split; [vm_compute; reflexivity|].
  apply (getFormatBoundary_fixed_position
           (caretValue [Some [mkLink 1 "u"]; Some [bold; mkLink 1 "u"]] "ab" 1)
           linkSelector 1 1 1 2).
  vm_compute. reflexivity.
Defined.

Example position_shift_boundary :
  let value :=
    caretValue [Some [mkLink 1 "u"]; Some [bold; mkLink 1 "u"]] "ab" 1 in
  located value "core/link" 1 (mkLink 1 "u") 1
  ∧ carriesAt value 1 (mkLink 1 "u") 0 = false
  ∧ carriesAt value 0 (mkLink 1 "u") 0 = true
  ∧ getFormatBoundary value linkSelector 1 1
    = {| bstart := Some 1; bend := Some 2 |}.
Proof. cbv zeta. repeat split; vm_compute; reflexivity. Qed.

(** C1 as stated fails when the instance changes position inside the run:
    both characters of ["ab"] carry the same link instance (and no other link
    format), the caret sits strictly inside the run [[0, 2)], and the
    boundary returned is [[1, 2)]. *)
Lemma getFormatBoundary_run_counterexample :
  let L := mkLink 1 "u" in
  let value := caretValue [Some [L]; Some [bold; L]] "ab" 1 in
  type L = "core/link"
  ∧ start value = end_ value
  ∧ isRun value L 0 2 = true
  ∧ allBetween (formattedBy value "core/link" L) 0 2 = true
  ∧ 0 < start value < 2
  ∧ getFormatBoundary_default value linkSelector
      = {| bstart := Some 1; bend := Some 2 |}
  ∧ getFormatBoundary_default value linkSelector
      ≠ {| bstart := Some 0; bend := Some 2 |}.
Proof.
  cbv zeta. split; [reflexivity|]. split; [reflexivity|].
  split; [vm_compute; reflexivity|]. split; [vm_compute; reflexivity|].
  split; [cbn; lia|]. split; [vm_compute; reflexivity|].
  vm_compute. discriminate.
Qed.

(** C1, amended.  Let the caret sit inside [[s, e)], let [L] be the instance
    of the target type that the lookup finds at the caret and [k] its
    position in the format stack there.  If every character of [[s, e)]
    carries [L] at position [k] and the characters at [s - 1] and at [e] do
    not, the boundary returned is exactly [[s, e)]. *)
Theorem getFormatBoundary_run value format c L k s e :
  start value = c → end_ value = c →
  s <= c < e →
  located value (type format) c L k →
  allBetween (carriesAt value k L) s e = true →
  carriesAt value k L (s - 1) = false →
  carriesAt value k L e = false →
  getFormatBoundary_default value format
    = {| bstart := Some s; bend := Some e |}.
Proof.
  intros Hstart Hend Hc Hloc Hrun Hleft Hright.
  unfold getFormatBoundary_default. rewrite Hstart, Hend.
  rewrite allBetween_true in Hrun. unfold carriesAt in *.
  apply (getFormatBoundary_exact value format c c L k s e Hloc);
    [lia | lia | | | exact Hleft | exact Hright];
    intros j Hj; apply Hrun; lia.
Qed.

Lemma getFormatBoundary_run_witness :
  getFormatBoundary_default
    (caretValue [None; Some [bold; mkLink 1 "u"]; Some [bold; mkLink 1 "u"];
                 Some [bold; mkLink 1 "u"]; Some [mkLink 1 "u"]] "abcde" 2)
    linkSelector
  = {| bstart := Some 1; bend := Some 4 |}.
Proof.
  apply (getFormatBoundary_run _ linkSelector 2 (mkLink 1 "u") 1 1 4);
    [reflexivity | reflexivity | lia | split; vm_compute; reflexivity
    | vm_compute; reflexivity | vm_compute; reflexivity
    | vm_compute; reflexivity].
Defined.

(** The end index handed back is exclusive, while the end index taken as an
    argument is stepped once before the first test: feeding a result back
    never returns it. *)
Lemma getFormatBoundary_end_grows value format s e s' e' :
  getFormatBoundary value format s e
    = {| bstart := Some s'; bend := Some e' |} →
  ∃ s2 e2,
    getFormatBoundary value format s' e'
      = {| bstart := Some s2; bend := Some e2 |}
    ∧ e' < e2.
Proof.
  intros Hres.
  destruct (getFormatBoundary_inv _ _ _ _ _ _ Hres) as (L & k & Hloc).
  destruct (getFormatBoundary_found value format s e L k Hloc)
    as (s1 & e1 & Heq & Hs1 & He1 & Hback & _).
  rewrite Hres in Heq. injection Heq as -> ->.
  assert (sameFormatAt (formats value) k L s1 = true) as Hs' by (apply Hback; lia).
  apply sameFormatAt_true in Hs' as (l & Hl & Hk).
  destruct (located_guard _ _ _ _ _ Hloc) as [Hty _].
  destruct (find (formatsAt (formats value) s1) (type format)) as [L'|] eqn:Hf.
  - destruct (getFormatBoundary_found value format s1 e1 L' _
                (conj Hf eq_refl)) as (s2 & e2 & Heq & _ & He2 & _).
    exists s2, e2. split; [exact Heq | exact He2].
  - exfalso. rewrite find_None in Hf. apply (Hf l Hl L); [|exact Hty].
    unfold js_index in Hk. case_decide; [|discriminate].
    eapply list_elem_of_lookup_2, Hk.
Qed.

(** C2 as stated fails already on a one-character link: the boundary of the
    caret at 0 is [[0, 1)], and the boundary computed from the arguments
    [0] and [1] is [[0, 2)]. *)
Lemma getFormatBoundary_idempotent_counterexample :
  let value := caretValue [Some [mkLink 1 "u"]] "a" 0 in
  getFormatBoundary_default value linkSelector
    = {| bstart := Some 0; bend := Some 1 |}
  ∧ getFormatBoundary value linkSelector 0 1
    = {| bstart := Some 0; bend := Some 2 |}
  ∧ getFormatBoundary value linkSelector 0 1
    ≠ getFormatBoundary_default value linkSelector.
Proof.
  cbv zeta. split; [vm_compute; reflexivity|].
  split; [vm_compute; reflexivity|]. vm_compute. discriminate.
Qed.

(** C2, amended.  The arguments are indices of characters inside the format,
    the result is a half-open range.  Called again with the returned start
    and with the index of the last character of the returned range
    ([end - 1]), [getFormatBoundary] returns the same pair, provided the
    lookup at the returned start locates the same instance at the same stack
    position as the first call.  Called with the returned end itself, it
    returns an end that is larger. *)
Theorem getFormatBoundary_reapply value format s e s' e' L k :
  getFormatBoundary value format s e
    = {| bstart := Some s'; bend := Some e' |} →
  located value (type format) s L k →
  located value (type format) s' L k →
  getFormatBoundary value format s' (e' - 1)
    = {| bstart := Some s'; bend := Some e' |}
  ∧ ∃ s2 e2,
      getFormatBoundary value format s' e'
        = {| bstart := Some s2; bend := Some e2 |}
      ∧ e' < e2.
Proof.
  intros Hres Hloc Hloc'.
  split; [|exact (getFormatBoundary_end_grows _ _ _ _ _ _ Hres)].
  destruct (getFormatBoundary_found value format s e L k Hloc)
    as (s1 & e1 & Heq & Hs1 & He1 & Hback & Hfwd & Hstop & Hstop').
  rewrite Hres in Heq. injection Heq as -> ->.
  apply (getFormatBoundary_exact value format s1 (e1 - 1) L k s1 e1 Hloc');
    [lia | lia | | | exact Hstop | exact Hstop'].
  - intros j Hj. apply Hback. lia.
  - intros j Hj. lia.
Qed.

Lemma getFormatBoundary_reapply_witness :
  getFormatBoundary
    (caretValue [None; Some [mkLink 1 "u"]; Some [mkLink 1 "u"];
                 Some [mkLink 1 "u"]; None] "abcde" 2)
    linkSelector 1 (4 - 1)
  = {| bstart := Some 1; bend := Some 4 |}.
Proof.
  apply (getFormatBoundary_reapply _ linkSelector 2 2 1 4 (mkLink 1 "u") 0);
    [vm_compute; reflexivity | split; vm_compute; reflexivity
    | split; vm_compute; reflexivity].
Defined.

(** Two adjacent runs [[a, b)] and [[b, d)] whose characters carry the link
    instances [LA] and [LB]: distinct instances with the same type and the
    same attributes.  With the caret in one run the boundary is found, it
    holds the caret, it lies within the range of that run, all its characters
    carry the instance of that run, and it stops at [b]: it never reaches
    into the other run, wherever the instances sit in the stacks. *)
Lemma getFormatBoundary_within_run value format a b d LA LB c :
  LA ≠ LB →
  type LA = type format → type LB = type format →
  attributes LA = attributes LB →
  a < b < d →
  allBetween (formattedBy value (type format) LA) a b = true →
  allBetween (formattedBy value (type format) LB) b d = true →
  carries value LA (a - 1) = false →
  carries value LB d = false →
  start value = c → end_ value = c →
  (a <= c < b →
   ∃ s' e',
     getFormatBoundary_default value format
       = {| bstart := Some s'; bend := Some e' |}
     ∧ a <= s' ∧ s' <= c < e' ∧ e' <= b
     ∧ allBetween (carries value LA) s' e' = true)
  ∧ (b <= c < d →
     ∃ s' e',
       getFormatBoundary_default value format
         = {| bstart := Some s'; bend := Some e' |}
       ∧ b <= s' ∧ s' <= c < e' ∧ e' <= d
       ∧ allBetween (carries value LB) s' e' = true).
Proof.
  intros Hne HtyA HtyB _ Habd HA HB Hleft Hright Hstart Hend.
  rewrite allBetween_true in HA, HB.
  unfold getFormatBoundary_default. rewrite Hstart, Hend.
  assert (∀ k i, a <= i < b → carriesAt value k LB i = false) as HnoB.
  { intros k i Hi. destruct (carriesAt value k LB i) eqn:Hc; [|reflexivity].
    exfalso. apply carriesAt_carries in Hc. unfold carries in Hc.
    destruct (proj1 (formattedBy_true _ _ _ _) (HA i Hi))
      as (l & Hl & _ & Honly).
    rewrite Hl in Hc. apply bool_decide_eq_true in Hc.
    apply Hne. symmetry. by apply Honly. }
  assert (∀ k i, b <= i < d → carriesAt value k LA i = false) as HnoA.
  { intros k i Hi. destruct (carriesAt value k LA i) eqn:Hc; [|reflexivity].
    exfalso. apply carriesAt_carries in Hc. unfold carries in Hc.
    destruct (proj1 (formattedBy_true _ _ _ _) (HB i Hi))
      as (l & Hl & _ & Honly).
    rewrite Hl in Hc. apply bool_decide_eq_true in Hc.
    apply Hne. by apply Honly. }
  split; intros Hc.
  - destruct (formattedBy_located value (type format) LA c HtyA (HA c Hc))
      as (k & Hloc).
    destruct (getFormatBoundary_found value format c c LA k Hloc)
      as (s' & e' & Heq & Hs' & He' & Hback & Hfwd & _ & _).
    exists s', e'. split; [exact Heq|].
    assert (a <= s') as Ha.
    { destruct (decide (a <= s')) as [|Hlt]; [assumption|]. exfalso.
      specialize (Hback (a - 1) ltac:(lia)).
      apply carriesAt_carries in Hback. congruence. }
    assert (e' <= b) as Hb.
    { destruct (decide (e' <= b)) as [|Hgt]; [assumption|]. exfalso.
      specialize (Hfwd b ltac:(lia)). unfold carriesAt in HnoA.
      rewrite HnoA in Hfwd by lia. discriminate. }
    split; [exact Ha|]. split; [lia|]. split; [exact Hb|].
    apply allBetween_true. intros i Hi.
    apply (carriesAt_carries value k). unfold carriesAt.
    destruct (decide (i <= c)); [apply Hback | apply Hfwd]; lia.
  - destruct (formattedBy_located value (type format) LB c HtyB (HB c Hc))
      as (k & Hloc).
    destruct (getFormatBoundary_found value format c c LB k Hloc)
      as (s' & e' & Heq & Hs' & He' & Hback & Hfwd & _ & _).
    exists s', e'. split; [exact Heq|].
    assert (b <= s') as Hb.
    { destruct (decide (b <= s')) as [|Hlt]; [assumption|]. exfalso.
      specialize (Hback (b - 1) ltac:(lia)). unfold carriesAt in HnoB.
      rewrite HnoB in Hback by lia. discriminate. }
    assert (e' <= d) as Hd.
    { destruct (decide (e' <= d)) as [|Hgt]; [assumption|]. exfalso.
      specialize (Hfwd d ltac:(lia)).
      apply carriesAt_carries in Hfwd. congruence. }
    split; [exact Hb|]. split; [lia|]. split; [exact Hd|].
    apply allBetween_true. intros i Hi.
    apply (carriesAt_carries value k). unfold carriesAt.
    destruct (decide (i <= c)); [apply Hback | apply Hfwd]; lia.
Qed.

Lemma getFormatBoundary_within_run_example :
  let value :=
    caretValue [None; Some [mkLink 1 "u"]; Some [mkLink 1 "u"];
                Some [mkLink 2 "u"]; Some [mkLink 2 "u"]] "xabcd" 2 in
  ∃ s' e',
    getFormatBoundary_default value linkSelector
      = {| bstart := Some s'; bend := Some e' |}
    ∧ 1 <= s' ∧ s' <= 2 < e' ∧ e' <= 3
    ∧ allBetween (carries value (mkLink 1 "u")) s' e' = true.
Proof.
  cbv zeta.
  refine (proj1 (getFormatBoundary_within_run _ linkSelector 1 3 5
                   (mkLink 1 "u") (mkLink 2 "u") 2 _ _ _ _ _ _ _ _ _ _ _) _);
    [discriminate | reflexivity | reflexivity | reflexivity | lia
    | vm_compute; reflexivity | vm_compute; reflexivity
    | vm_compute; reflexivity | vm_compute; reflexivity
    | reflexivity | reflexivity | lia].
Qed.


Lemma locatedAt_true value ty k L i :
  locatedAt value ty k L i = true ↔ located value ty i L k.
Proof.
  unfold locatedAt, located.
  rewrite andb_true_iff, !bool_decide_eq_true. reflexivity.
Qed.

(** C7 as stated fails for the same reason as C1.  The first run is
    [[0, 2)] with the instance [LA], the second one [[2, 4)] with [LB], a
    distinct instance with the same type and attributes; each character
    carries no other link format.  The first character is not bold, the
    others are: with the caret at 1 the boundary is [[1, 2)], not the run
    [[0, 2)]. *)
Lemma getFormatBoundary_adjacent_counterexample :
  let LA := mkLink 1 "u" in
  let LB := mkLink 2 "u" in
  let value :=
    caretValue [Some [LA]; Some [bold; LA]; Some [bold; LB]; Some [bold; LB]]
      "abcd" 1 in
  LA ≠ LB
  ∧ type LA = type LB ∧ attributes LA = attributes LB
  ∧ isRun value LA 0 2 = true ∧ isRun value LB 2 4 = true
  ∧ allBetween (formattedBy value "core/link" LA) 0 2 = true
  ∧ allBetween (formattedBy value "core/link" LB) 2 4 = true
  ∧ 0 <= start value < 2 ∧ start value = end_ value
  ∧ getFormatBoundary_default value linkSelector
    = {| bstart := Some 1; bend := Some 2 |}
  ∧ getFormatBoundary_default value linkSelector
    ≠ {| bstart := Some 0; bend := Some 2 |}.
Proof.
  cbv zeta. split; [discriminate|]. split; [reflexivity|].
  split; [reflexivity|].
  repeat (split; [vm_compute; reflexivity|]).
  split; [cbn; lia|]. split; [reflexivity|].
  split; [vm_compute; reflexivity|]. vm_compute. discriminate.
Qed.

(** C7, amended.  Two adjacent maximal runs [[a, b)] and [[b, d)] whose
    characters carry the link instances [LA] and [LB] as their only link
    format: distinct instances with the same type and the same attributes.
    When the lookup finds the instance of a run at one and the same stack
    position on every character of that run ([kA] for the first run, [kB]
    for the second), the boundary of a caret inside a run is exactly the
    range of that run: [[a, b)] in the first run, [[b, d)] in the second.
    The walk stops at [b] although the format on the other side is equal in
    type and attributes. *)
Theorem getFormatBoundary_adjacent_instances value format a b d LA LB kA kB
    c :
  LA ≠ LB →
  type LA = type format → type LB = type format →
  attributes LA = attributes LB →
  a < b < d →
  allBetween (formattedBy value (type format) LA) a b = true →
  allBetween (formattedBy value (type format) LB) b d = true →
  allBetween (locatedAt value (type format) kA LA) a b = true →
  allBetween (locatedAt value (type format) kB LB) b d = true →
  carries value LA (a - 1) = false →
  carries value LB d = false →
  start value = c → end_ value = c →
  (a <= c < b →
   getFormatBoundary_default value format
     = {| bstart := Some a; bend := Some b |})
  ∧ (b <= c < d →
     getFormatBoundary_default value format
       = {| bstart := Some b; bend := Some d |}).
Proof.
  intros Hne HtyA HtyB _ Habd HA HB HkA HkB Hleft Hright Hstart Hend.
  rewrite allBetween_true in HA, HB, HkA, HkB.
  unfold getFormatBoundary_default. rewrite Hstart, Hend.
  assert (∀ k i, carries value LA i = false →
                 sameFormatAt (formats value) k LA i = false) as HoutA.
  { intros k i Hno. destruct (sameFormatAt (formats value) k LA i) eqn:Hc;
      [|reflexivity].
    apply (carriesAt_carries value k) in Hc. congruence. }
  assert (∀ k i, carries value LB i = false →
                 sameFormatAt (formats value) k LB i = false) as HoutB.
  { intros k i Hno. destruct (sameFormatAt (formats value) k LB i) eqn:Hc;
      [|reflexivity].
    apply (carriesAt_carries value k) in Hc. congruence. }
  assert (∀ i, a <= i < b → carries value LB i = false) as HnoB.
  { intros i Hi. destruct (carries value LB i) eqn:Hc; [|reflexivity].
    exfalso. unfold carries in Hc.
    destruct (proj1 (formattedBy_true _ _ _ _) (HA i Hi))
      as (l & Hl & _ & Honly).
    rewrite Hl in Hc. apply bool_decide_eq_true in Hc.
    apply Hne. symmetry. by apply Honly. }
  assert (∀ i, b <= i < d → carries value LA i = false) as HnoA.
  { intros i Hi. destruct (carries value LA i) eqn:Hc; [|reflexivity].
    exfalso. unfold carries in Hc.
    destruct (proj1 (formattedBy_true _ _ _ _) (HB i Hi))
      as (l & Hl & _ & Honly).
    rewrite Hl in Hc. apply bool_decide_eq_true in Hc.
    apply Hne. by apply Honly. }
  assert (∀ i, a <= i < b → located value (type format) i LA kA) as HlocA
    by (intros i Hi; apply locatedAt_true, HkA, Hi).
  assert (∀ i, b <= i < d → located value (type format) i LB kB) as HlocB
    by (intros i Hi; apply locatedAt_true, HkB, Hi).
  split; intros Hc.
  - apply (getFormatBoundary_exact value format c c LA kA a b (HlocA c Hc));
      [lia | lia | | | apply HoutA, Hleft | apply HoutA, HnoA; lia];
      intros j Hj; apply (located_guard _ _ _ _ _ (HlocA j ltac:(lia))).
  - apply (getFormatBoundary_exact value format c c LB kB b d (HlocB c Hc));
      [lia | lia | | | apply HoutB, HnoB; lia | apply HoutB, Hright];
      intros j Hj; apply (located_guard _ _ _ _ _ (HlocB j ltac:(lia))).
Qed.

(** Both runs are bold, so each instance sits at position 1 throughout its
    run: the caret at 2 gives the first run, the caret at 3 the second. *)
Lemma getFormatBoundary_adjacent_instances_witness :
  getFormatBoundary_default
    (caretValue [None; Some [bold; mkLink 1 "u"]; Some [bold; mkLink 1 "u"];
                 Some [bold; mkLink 2 "u"]; Some [bold; mkLink 2 "u"]]
       "xabcd" 2) linkSelector
  = {| bstart := Some 1; bend := Some 3 |}
  ∧ getFormatBoundary_default
      (caretValue [None; Some [bold; mkLink 1 "u"]; Some [bold; mkLink 1 "u"];
                   Some [bold; mkLink 2 "u"]; Some [bold; mkLink 2 "u"]]
         "xabcd" 3) linkSelector
    = {| bstart := Some 3; bend := Some 5 |}.
Proof.
  split.
  - refine (proj1 (getFormatBoundary_adjacent_instances _ linkSelector 1 3 5
                     (mkLink 1 "u") (mkLink 2 "u") 1 1 2
                     _ _ _ _ _ _ _ _ _ _ _ _ _) _);
      [discriminate | reflexivity | reflexivity | reflexivity | lia
      | vm_compute; reflexivity | vm_compute; reflexivity
      | vm_compute; reflexivity | vm_compute; reflexivity
      | vm_compute; reflexivity | vm_compute; reflexivity
      | reflexivity | reflexivity | lia].
  - refine (proj2 (getFormatBoundary_adjacent_instances _ linkSelector 1 3 5
                     (mkLink 1 "u") (mkLink 2 "u") 1 1 3
                     _ _ _ _ _ _ _ _ _ _ _ _ _) _);
      [discriminate | reflexivity | reflexivity | reflexivity | lia
      | vm_compute; reflexivity | vm_compute; reflexivity
      | vm_compute; reflexivity | vm_compute; reflexivity
      | vm_compute; reflexivity | vm_compute; reflexivity
      | reflexivity | reflexivity | lia].
Defined.

(** The merged range is not returned: with two links of two characters each
    and no other format, the result is the first run alone. *)
Example adjacent_runs_first_run :
  getFormatBoundary_default
    (caretValue [Some [mkLink 1 "u"]; Some [mkLink 1 "u"];
                 Some [mkLink 2 "u"]; Some [mkLink 2 "u"]] "abcd" 1)
    linkSelector
  = {| bstart := Some 0; bend := Some 2 |}.
Proof. vm_compute. reflexivity. Qed.

(** ** Objects and the effect monad *)

Lemma get_spread (a b : jsobj) (k : string) :
  get (spread a b) k = match b !! k with Some v => v | None => get a k end.
Proof.
  unfold get, spread. rewrite lookup_union.
  destruct (b !! k), (a !! k); reflexivity.
Qed.

Lemma get_insert_eq (o : jsobj) (k : string) (v : jsval) :
  get (<[k := v]> o) k = v.
Proof. unfold get. by rewrite lookup_insert_eq. Qed.

Lemma get_insert_ne (o : jsobj) (k k' : string) (v : jsval) :
  k ≠ k' → get (<[k := v]> o) k' = get o k'.
Proof. intros H. unfold get. by rewrite lookup_insert_ne. Qed.

Lemma get_Some_str (o : jsobj) (k s : string) :
  get o k = JStr s → o !! k = Some (JStr s).
Proof. unfold get. destruct (o !! k); cbn; [congruence | discriminate]. Qed.

Lemma strict_eq_refl (v : jsval) : strict_eq v v = true.
Proof. unfold strict_eq. by apply bool_decide_eq_true. Qed.

Lemma strict_eq_ne (a b : jsval) : a ≠ b → strict_eq a b = false.
Proof. intros H. unfold strict_eq. by apply bool_decide_eq_false. Qed.

Lemma bind_emit {B} (ev : Event) (k : unit → Eff B) :
  (emit ev ≫= k) = (ev :: (k tt).1, (k tt).2).
Proof. unfold emit, mbind, Eff_bind. by destruct (k tt). Qed.

Lemma bind_ret {A B} (a : A) (k : A → Eff B) : (mret a ≫= k) = k a.
Proof. unfold mret, Eff_ret, mbind, Eff_bind. by destruct (k a). Qed.

Lemma bind_length {B} (v len : jsval) (k : jsval → Eff B) :
  lengthOf v = Some len → (js_length v ≫= k) = k len.
Proof. intros H. unfold js_length. rewrite H. apply bind_ret. Qed.

(** A text that falls back on a string has a length. *)
Lemma lengthOf_js_or (a : jsval) (s : string) :
  ∃ len, lengthOf (js_or a (JStr s)) = Some len.
Proof.
  unfold js_or. destruct a as [| |b|n|s']; cbn; eauto.
  - destruct b; cbn; eauto.
  - destruct (n =? 0); cbn; eauto.
  - destruct (String.eqb s' ""); cbn; eauto.
Qed.

(** Merging the pending settings into a link value that already holds them
    changes nothing. *)
Lemma spread_linkValue_insert D props nextLinkValue (k : string) (v : jsval) :
  spread (default ∅ nextLinkValue) (<[k := v]> (linkValue D props nextLinkValue))
  = <[k := v]> (linkValue D props nextLinkValue).
Proof.
  unfold linkValue, spread. apply map_eq. intros key.
  set (p := default ∅ nextLinkValue). set (base := <["url" := _]> _).
  rewrite lookup_union.
  destruct (decide (k = key)) as [->|Hne].
  - rewrite lookup_insert_eq. by destruct (p !! key).
  - rewrite lookup_insert_ne by done. rewrite lookup_union.
    destruct (p !! key), (base !! key); reflexivity.
Qed.

(** ** Properties of the controller *)

(** *** removeLink *)

Lemma existsb_filter_negb {A} (p : A → bool) (l : list A) :
  existsb p (List.filter (λ x, negb (p x)) l) = false.
Proof.
  induction l as [|x l IH]; [reflexivity|]. cbn.
  destruct (p x) eqn:Hp; cbn; [exact IH|]. by rewrite Hp, IH.
Qed.

Lemma filter_negb_id {A} (p : A → bool) (l : list A) :
  existsb p l = false → List.filter (λ x, negb (p x)) l = l.
Proof.
  induction l as [|x l IH]; [reflexivity|]. cbn.
  destruct (p x); cbn; [discriminate|]. intros H. by rewrite IH.
Qed.

Lemma removeFormat_strips value formatType :
  hasFormatType (SpecModel.removeFormat value formatType) formatType = false.
Proof.
  unfold hasFormatType, SpecModel.removeFormat. cbn.
  rewrite existsb_filter_negb. cbn.
  induction (formats value) as [|slot fs IH]; [reflexivity|]. cbn.
  rewrite IH, orb_false_r. destruct slot as [l|]; cbn; [|reflexivity].
  apply existsb_filter_negb.
Qed.

Lemma removeFormat_noop value formatType :
  hasFormatType value formatType = false →
  SpecModel.removeFormat value formatType = value.
Proof.
  unfold hasFormatType, SpecModel.removeFormat.
  intros [Hactive Hformats]%orb_false_iff. destruct value as [fs t s e af].
  cbn in *. f_equal; [|by apply filter_negb_id].
  induction fs as [|slot fs IH]; [reflexivity|]. cbn in *.
  apply orb_false_iff in Hformats as [Hslot Hrest].
  rewrite IH by exact Hrest. f_equal.
  destruct slot as [l|]; cbn in *; [|reflexivity].
  by rewrite filter_negb_id.
Qed.

(** C9.  [removeLink] has no failing path: it hands the value stripped of the
    link format to [onChange], leaves the editing mode and speaks the removal
    announcement, once.  With a [removeFormat] that strips the format from
    the full value, no link format is left in the committed value, and a
    value without link format is committed as it is. *)
Theorem removeLink_never_fails D props :
  (∀ v, Deps.removeFormat D v "core/link"
        = SpecModel.removeFormat v "core/link") →
  ∃ newValue,
    removeLink D props
      = ([OnChange newValue; StopAddingLink;
          Speak (Deps.translate D "Link removed.") "assertive"],
         Normal tt)
    ∧ spoken (trace (removeLink D props))
      = [Deps.translate D "Link removed."]
    ∧ newValue = Deps.removeFormat D (value props) "core/link"
    ∧ hasFormatType newValue "core/link" = false
    ∧ text newValue = text (value props)
    ∧ (hasFormatType (value props) "core/link" = false →
       newValue = value props).
Proof.
  intros Hstrip. exists (Deps.removeFormat D (value props) "core/link").
  split; [reflexivity|]. split; [reflexivity|]. split; [reflexivity|].
  rewrite Hstrip. split; [apply removeFormat_strips|].
  split; [reflexivity|]. apply removeFormat_noop.
Qed.

Lemma removeLink_never_fails_witness :
  ∃ newValue,
    removeLink SpecModel.deps insertProps
      = ([OnChange newValue; StopAddingLink;
          Speak "Link removed." "assertive"], Normal tt)
    ∧ spoken (trace (removeLink SpecModel.deps insertProps))
      = ["Link removed."]
    ∧ newValue = SpecModel.removeFormat (value insertProps) "core/link"
    ∧ hasFormatType newValue "core/link" = false
    ∧ text newValue = text (value insertProps)
    ∧ (hasFormatType (value insertProps) "core/link" = false →
       newValue = value insertProps).
Proof.
  apply (removeLink_never_fails SpecModel.deps insertProps).
  intros v. reflexivity.
Defined.

Example removed_link_value :
  committed (trace (removeLink SpecModel.deps (editProps "http://a.b")))
  = [caretValue [None; None; None; None; Some []; Some []; Some [];
                 None; None; None; None; None] "see old docs" 5].
Proof. vm_compute. reflexivity. Qed.

(** *** onChangeLink *)

(** A change that carries a URL is never held back. *)
Lemma didToggleSettingForNewLink_url lv nextValue (url : string) :
  get nextValue "url" = JStr url →
  didToggleSettingForNewLink lv nextValue = false.
Proof.
  intros Hurl. unfold didToggleSettingForNewLink. rewrite Hurl.
  rewrite (strict_eq_ne (JStr url) JUndefined) by discriminate.
  apply andb_false_r.
Qed.

(** The run of [onChangeLink] once the change is known to be committed and
    the new text to have a length. *)
Lemma onChangeLink_commit D props nextLinkValue nextValue newText len :
  let merged := spread (default ∅ nextLinkValue) nextValue in
  let lv := linkValue D props nextLinkValue in
  let newUrl := Deps.prependHTTP D (get merged "url") in
  didToggleSettingForNewLink lv merged = false →
  newText = js_or (js_or (get merged "text") (get merged "title")) newUrl →
  lengthOf newText = Some len →
  onChangeLink D props nextLinkValue nextValue
  = ((SetNextLinkValue None
      :: OnChange
           (committedValue D props
              (Deps.createLinkFormat D (linkFormatOptions newUrl merged))
              newText len)
      :: (if didToggleSetting lv merged then [] else [StopAddingLink])
      ++ [Speak
            (Deps.translate D
               (if negb (Deps.isValidHref D newUrl) then invalidWarning
                else if isActive props then "Link edited."
                else "Link inserted."))
            "assertive"])%list,
     Normal tt).
Proof.
  intros merged lv newUrl Hheld -> Hlen.
  unfold onChangeLink, committedValue. fold merged lv. cbv zeta.
  rewrite Hheld. rewrite bind_emit. fold newUrl.
  destruct (Deps.isCollapsed D (value props) && negb (isActive props));
    rewrite (bind_length _ _ _ Hlen);
    destruct (didToggleSetting lv merged);
    destruct (Deps.isValidHref D newUrl);
    destruct (isActive props); reflexivity.
Qed.

(** C8.  A caret outside of any link and the submitted URL ["example.com"],
    without text or title: with a [prependHTTP] that normalises the URL to
    ["http://example.com"] and an [isValidHref] that accepts the result, the
    value handed to [onChange] is the value with a new text inserted whose
    text is the normalised URL and whose link format is built for the
    normalised URL, and the announcement is the one of an inserted link, not
    the warning. *)
Theorem onChangeLink_inserts_url D props nextLinkValue nextValue :
  let merged := spread (default ∅ nextLinkValue) nextValue in
  let lv := linkValue D props nextLinkValue in
  let newUrl := JStr "http://example.com" in
  let linkFormat := Deps.createLinkFormat D (linkFormatOptions newUrl merged) in
  Deps.isCollapsed D (value props) = true →
  isActive props = false →
  get merged "url" = JStr "example.com" →
  truthy (get merged "text") = false →
  truthy (get merged "title") = false →
  Deps.prependHTTP D (JStr "example.com") = newUrl →
  Deps.isValidHref D newUrl = true →
  onChangeLink D props nextLinkValue nextValue
  = ((SetNextLinkValue None
      :: OnChange
           (Deps.insert D (value props)
              (Deps.applyFormat D (Deps.create D newUrl) linkFormat
                 (JNum 0) (JNum 18)))
      :: (if didToggleSetting lv merged then [] else [StopAddingLink])
      ++ [Speak (Deps.translate D "Link inserted.") "assertive"])%list,
     Normal tt)
  ∧ opt_url (linkFormatOptions newUrl merged) = newUrl
  ∧ spoken (trace (onChangeLink D props nextLinkValue nextValue))
    = [Deps.translate D "Link inserted."].
Proof.
  intros merged lv newUrl linkFormat Hcaret Hactive Hurl Htext Htitle
    Hprepend Hvalid.
  assert (onChangeLink D props nextLinkValue nextValue
          = ((SetNextLinkValue None
              :: OnChange
                   (Deps.insert D (value props)
                      (Deps.applyFormat D (Deps.create D newUrl) linkFormat
                         (JNum 0) (JNum 18)))
              :: (if didToggleSetting lv merged then [] else [StopAddingLink])
              ++ [Speak (Deps.translate D "Link inserted.") "assertive"])%list,
             Normal tt)) as Hrun.
  { rewrite (onChangeLink_commit D props nextLinkValue nextValue newUrl
               (JNum 18)).
    - fold merged lv. rewrite Hurl, Hprepend, Hvalid. cbn [negb].
      unfold committedValue. rewrite Hcaret, Hactive. reflexivity.
    - eapply didToggleSettingForNewLink_url. exact Hurl.
    - fold merged. rewrite Hurl, Hprepend. unfold js_or.
      rewrite Htext, Htitle. reflexivity.
    - reflexivity. }
  split; [exact Hrun|]. split; [reflexivity|]. rewrite Hrun.
  unfold trace, spoken. cbn. by destruct (didToggleSetting lv merged).
Qed.

Lemma onChangeLink_inserts_url_witness :
  let nextValue : jsobj := {[ "url" := JStr "example.com" ]} in
  onChangeLink SpecModel.deps insertProps None nextValue
  = ([SetNextLinkValue None;
      OnChange
        (SpecModel.insert (value insertProps)
           (SpecModel.applyFormat
              (SpecModel.create (JStr "http://example.com"))
              (SpecModel.createLinkFormat
                 (linkFormatOptions (JStr "http://example.com")
                    (spread ∅ nextValue)))
              (JNum 0) (JNum 18)));
      StopAddingLink;
      Speak "Link inserted." "assertive"],
     Normal tt).
Proof.
  cbv zeta.
  refine (proj1 (onChangeLink_inserts_url SpecModel.deps insertProps None
                   {[ "url" := JStr "example.com" ]} _ _ _ _ _ _ _));
    vm_compute; reflexivity.
Defined.

Example inserted_link_value :
  (λ v, (text v, start v, formats v !! 1%nat))
    <$> committed (trace (onChangeLink SpecModel.deps insertProps None
                            {[ "url" := JStr "example.com" ]}))
  = [("ahttp://example.comb", 19,
      Some (Some [SpecModel.createLinkFormat
                    (mkOptions (JStr "http://example.com") JUndefined
                       JUndefined JUndefined)]))].
Proof. vm_compute. reflexivity. Qed.




(** *** The rich text functions of the reference implementation *)










(** C4.  No URL is committed yet and the change flips the setting only.
    First run: the merged value becomes the pending settings, [onChange] and
    [stopAddingLink] are not called and nothing is spoken.  Second run, from
    the pending settings, with a change that submits a URL and leaves the
    setting alone: the link format is built with the flag of the first run,
    the value is committed, the editing mode is left and the pending settings
    are cleared. *)
Theorem onChangeLink_defers_toggle D props nextLinkValue (flag : jsval)
    (submitted : jsobj) (url newUrl : string) :
  let lv := linkValue D props nextLinkValue in
  let toggled := <["opensInNewTab" := flag]> lv in
  let pending := spread (default ∅ nextLinkValue) toggled in
  let merged := spread pending submitted in
  get lv "url" = JUndefined →
  flag ≠ get lv "opensInNewTab" →
  submitted !! "opensInNewTab" = None →
  get submitted "url" = JStr url →
  Deps.prependHTTP D (JStr url) = JStr newUrl →
  (onChangeLink D props nextLinkValue toggled
     = ([SetNextLinkValue (Some pending)], Normal tt)
   ∧ committed (trace (onChangeLink D props nextLinkValue toggled)) = []
   ∧ stateAfter nextLinkValue
       (trace (onChangeLink D props nextLinkValue toggled)) = Some pending
   ∧ get pending "opensInNewTab" = flag)
  ∧ ∃ newText len message,
      onChangeLink D props (Some pending) submitted
        = ([SetNextLinkValue None;
            OnChange
              (committedValue D props
                 (Deps.createLinkFormat D
                    (linkFormatOptions (JStr newUrl) merged))
                 newText len);
            StopAddingLink;
            Speak message "assertive"],
           Normal tt)
      ∧ opt_opensInNewWindow (linkFormatOptions (JStr newUrl) merged) = flag
      ∧ stateAfter (Some pending)
          (trace (onChangeLink D props (Some pending) submitted)) = None.
Proof.
  intros lv toggled pending merged Hnourl Hflag Hkeep Hurl Hprepend.
  assert (pending = toggled) as Hpending
    by apply spread_linkValue_insert.
  assert (get toggled "opensInNewTab" = flag) as Hflag'
    by apply get_insert_eq.
  assert (get toggled "url" = JUndefined) as Hurl'
    by (unfold toggled; rewrite get_insert_ne by done; exact Hnourl).
  assert (onChangeLink D props nextLinkValue toggled
          = ([SetNextLinkValue (Some pending)], Normal tt)) as Hrun1.
  { unfold onChangeLink. fold lv pending. cbv zeta.
    assert (didToggleSettingForNewLink lv pending = true) as ->.
    { unfold didToggleSettingForNewLink, didToggleSetting.
      rewrite Hpending, Hflag', Hurl', Hnourl, strict_eq_refl.
      rewrite strict_eq_ne by congruence. reflexivity. }
    reflexivity. }
  split.
  { rewrite Hrun1. split; [reflexivity|]. split; [reflexivity|].
    split; [reflexivity|]. by rewrite Hpending. }
  assert (get merged "opensInNewTab" = flag) as Hmflag.
  { unfold merged. rewrite get_spread, Hkeep, Hpending. exact Hflag'. }
  assert (get merged "url" = JStr url) as Hmurl.
  { unfold merged. rewrite get_spread, (get_Some_str _ _ _ Hurl). reflexivity. }
  set (lv2 := linkValue D props (Some pending)).
  assert (didToggleSetting lv2 merged = false) as Hstay.
  { unfold didToggleSetting. rewrite Hmflag.
    assert (get lv2 "opensInNewTab" = flag) as ->.
    { assert (pending !! "opensInNewTab" = Some flag) as Hlook
        by (rewrite Hpending; apply lookup_insert_eq).
      unfold lv2, linkValue. rewrite get_spread.
      change (default ∅ (Some pending)) with pending. by rewrite Hlook. }
    by rewrite strict_eq_refl. }
  destruct (lengthOf_js_or (js_or (get merged "text") (get merged "title"))
              newUrl) as [len Hlen].
  exists (js_or (js_or (get merged "text") (get merged "title")) (JStr newUrl)),
    len.
  eexists.
  pose proof (onChangeLink_commit D props (Some pending) submitted
                (js_or (js_or (get merged "text") (get merged "title"))
                   (JStr newUrl)) len) as Hrun2.
  cbv zeta in Hrun2. change (default ∅ (Some pending)) with pending in Hrun2.
  fold merged lv2 in Hrun2. rewrite Hmurl, Hprepend, Hstay in Hrun2.
  specialize (Hrun2 (didToggleSettingForNewLink_url _ _ _ Hmurl) eq_refl Hlen).
  split; [exact Hrun2|]. split; [exact Hmflag|].
  rewrite Hrun2. reflexivity.
Qed.

Lemma onChangeLink_defers_toggle_witness :
  let D := SpecModel.deps in
  let lv := linkValue D insertProps None in
  let toggled := <["opensInNewTab" := JBool true]> lv in
  let pending := spread ∅ toggled in
  let submitted : jsobj :=
    <["url" := JStr "example.com"]> (<["text" := JStr ""]> ∅) in
  let merged := spread pending submitted in
  (onChangeLink D insertProps None toggled
     = ([SetNextLinkValue (Some pending)], Normal tt)
   ∧ committed (trace (onChangeLink D insertProps None toggled)) = []
   ∧ stateAfter None (trace (onChangeLink D insertProps None toggled))
     = Some pending
   ∧ get pending "opensInNewTab" = JBool true)
  ∧ ∃ newText len message,
      onChangeLink D insertProps (Some pending) submitted
        = ([SetNextLinkValue None;
            OnChange
              (committedValue D insertProps
                 (Deps.createLinkFormat D
                    (linkFormatOptions (JStr "http://example.com") merged))
                 newText len);
            StopAddingLink;
            Speak message "assertive"],
           Normal tt)
      ∧ opt_opensInNewWindow
          (linkFormatOptions (JStr "http://example.com") merged)
        = JBool true
      ∧ stateAfter (Some pending)
          (trace (onChangeLink D insertProps (Some pending) submitted))
        = None.
Proof.
  cbv zeta.
  apply (onChangeLink_defers_toggle SpecModel.deps insertProps None
           (JBool true)
           (<["url" := JStr "example.com"]> (<["text" := JStr ""]> ∅))
           "example.com" "http://example.com");
    [vm_compute; reflexivity | vm_compute; discriminate
    | vm_compute; reflexivity | vm_compute; reflexivity
    | vm_compute; reflexivity].
Defined.

(** The link committed after the toggle opens in a new tab. *)
Example toggle_then_url_target :
  let D := SpecModel.deps in
  let pending := <["opensInNewTab" := JBool true]> (linkValue D insertProps None) in
  (λ v, (text v,
         (λ slot, (λ f, get (attributes f) "target") <$> default [] slot)
           <$> formats v !! 1%nat))
    <$> committed (trace (onChangeLink D insertProps (Some pending)
                            (<["url" := JStr "example.com"]>
                               (<["text" := JStr ""]> ∅))))
  = [("ahttp://example.comb", Some [JStr "_blank"])].
Proof. vm_compute. reflexivity. Qed.

(** ** Further properties of getFormatBoundary *)

(** X1.  The boundary is the null pair exactly when the character at the
    start index has no format of the target type; otherwise both ends are
    numbers. *)
Theorem getFormatBoundary_null_iff value format s e :
  (getFormatBoundary value format s e = {| bstart := None; bend := None |}
   ↔ (∀ l, formatsAt (formats value) s = Some l →
           ∀ f, f ∈ l → type f ≠ type format))
  ∧ (getFormatBoundary value format s e
       = {| bstart := None; bend := None |}
     ∨ ∃ s' e',
         getFormatBoundary value format s e
         = {| bstart := Some s'; bend := Some e' |}).
Proof.
  rewrite <- find_None. split.
  - split.
    + intros Hnull.
      destruct (find (formatsAt (formats value) s) (type format))
        as [L|] eqn:Hf; [|reflexivity].
      destruct (getFormatBoundary_found value format s e L _
                  (conj Hf eq_refl)) as (s' & e' & Heq & _).
      rewrite Hnull in Heq. discriminate.
    + apply getFormatBoundary_null.
  - destruct (find (formatsAt (formats value) s) (type format))
      as [L|] eqn:Hf.
    + right.
      destruct (getFormatBoundary_found value format s e L _
                  (conj Hf eq_refl)) as (s' & e' & Heq & _).
      eauto.
    + left. by apply getFormatBoundary_null.
Qed.

(** X2.  A boundary that is found stays inside the value: its start is an
    index of the value at or before the start index, and its end is either
    the end index plus one or an index up to the length of the value. *)
Theorem getFormatBoundary_bounds value format s e s' e' :
  getFormatBoundary value format s e
    = {| bstart := Some s'; bend := Some e' |} →
  0 <= s' ∧ s' <= s ∧ s < Z.of_nat (length (formats value))
  ∧ e < e' ∧ (e' = e + 1 ∨ e' <= Z.of_nat (length (formats value))).
Proof.
  intros Hres.
  destruct (getFormatBoundary_inv _ _ _ _ _ _ Hres) as (L & k & Hloc).
  destruct (getFormatBoundary_found value format s e L k Hloc)
    as (s1 & e1 & Heq & Hs1 & He1 & Hback & Hfwd & _ & _).
  rewrite Hres in Heq. injection Heq as -> ->.
  pose proof (sameFormatAt_range _ _ _ _ (Hback s1 ltac:(lia))) as Hr1.
  pose proof (sameFormatAt_range _ _ _ _ (Hback s ltac:(lia))) as Hr2.
  split; [lia|]. split; [lia|]. split; [lia|]. split; [lia|].
  destruct (decide (e1 = e + 1)) as [|Hne]; [left; assumption|right].
  pose proof (sameFormatAt_range _ _ _ _ (Hfwd (e1 - 1) ltac:(lia))). lia.
Qed.

Lemma getFormatBoundary_bounds_witness :
  0 <= 1 ∧ 1 <= 2 ∧ 2 < 5 ∧ 2 < 4 ∧ (4 = 2 + 1 ∨ 4 <= 5).
Proof.
  apply (getFormatBoundary_bounds
           (caretValue [None; Some [mkLink 1 "u"]; Some [mkLink 1 "u"];
                        Some [mkLink 1 "u"]; None] "abcde" 2)
           linkSelector 2 2 1 4).
  vm_compute. reflexivity.
Defined.

(** X3.  For a caret, the boundary that is found is a non-empty range around
    the character at the caret, and one single instance of the target type is
    carried by every character of the range. *)
Theorem getFormatBoundary_caret_covered value format c s' e' :
  getFormatBoundary value format c c
    = {| bstart := Some s'; bend := Some e' |} →
  s' <= c < e'
  ∧ ∃ L, type L = type format ∧ allBetween (carries value L) s' e' = true.
Proof.
  intros Hres.
  destruct (getFormatBoundary_inv _ _ _ _ _ _ Hres) as (L & k & Hloc).
  destruct (getFormatBoundary_found value format c c L k Hloc)
    as (s1 & e1 & Heq & Hs1 & He1 & Hback & Hfwd & _ & _).
  rewrite Hres in Heq. injection Heq as -> ->.
  split; [lia|]. exists L. split; [apply (located_guard _ _ _ _ _ Hloc)|].
  apply allBetween_true. intros i Hi. apply (carriesAt_carries value k).
  unfold carriesAt. destruct (decide (i <= c)); [apply Hback | apply Hfwd]; lia.
Qed.

Lemma getFormatBoundary_caret_covered_witness :
  1 <= 2 < 4
  ∧ ∃ L, type L = "core/link"
         ∧ allBetween
             (carries (caretValue [None; Some [bold; mkLink 1 "u"];
                                   Some [bold; mkLink 1 "u"];
                                   Some [bold; mkLink 1 "u"]; None]
                        "abcde" 2) L)
             1 4 = true.
Proof.
  apply (getFormatBoundary_caret_covered
           (caretValue [None; Some [bold; mkLink 1 "u"];
                        Some [bold; mkLink 1 "u"];
                        Some [bold; mkLink 1 "u"]; None] "abcde" 2)
           linkSelector 2 1 4).
  vm_compute. reflexivity.
Defined.

(** X4.  For a caret, every caret position inside the boundary at which the
    lookup locates the same instance at the same stack position gives the
    same boundary. *)
Theorem getFormatBoundary_caret_stable value format c c' s' e' L k :
  getFormatBoundary value format c c
    = {| bstart := Some s'; bend := Some e' |} →
  located value (type format) c L k →
  s' <= c' < e' →
  located value (type format) c' L k →
  getFormatBoundary value format c' c'
    = {| bstart := Some s'; bend := Some e' |}.
Proof.
  intros Hres Hloc Hc' Hloc'.
  destruct (getFormatBoundary_found value format c c L k Hloc)
    as (s1 & e1 & Heq & Hs1 & He1 & Hback & Hfwd & Hstop & Hstop').
  rewrite Hres in Heq. injection Heq as -> ->.
  assert (∀ j, s1 <= j < e1 → sameFormatAt (formats value) k L j = true)
    as Hall.
  { intros j Hj. destruct (decide (j <= c)); [apply Hback | apply Hfwd]; lia. }
  apply (getFormatBoundary_exact value format c' c' L k s1 e1 Hloc');
    [lia | lia | | | exact Hstop | exact Hstop'];
    intros j Hj; apply Hall; lia.
Qed.

Lemma getFormatBoundary_caret_stable_witness :
  getFormatBoundary
    (caretValue [None; Some [mkLink 1 "u"]; Some [mkLink 1 "u"];
                 Some [mkLink 1 "u"]; None] "abcde" 2)
    linkSelector 3 3
  = {| bstart := Some 1; bend := Some 4 |}.
Proof.
  apply (getFormatBoundary_caret_stable _ linkSelector 2 3 1 4
           (mkLink 1 "u") 0);
    [vm_compute; reflexivity | split; vm_compute; reflexivity | lia
    | split; vm_compute; reflexivity].
Defined.

(** X5.  The characters strictly after the start index and up to the end
    index are never read: two values whose format stacks agree at and before
    the start index and after the end index have the same boundary. *)
Theorem getFormatBoundary_ignores_inside value value' format s e :
  (∀ i, i <= s ∨ e < i →
        formatsAt (formats value) i = formatsAt (formats value') i) →
  getFormatBoundary value format s e = getFormatBoundary value' format s e.
Proof.
  intros Hsame.
  assert (∀ k L i, i <= s ∨ e < i →
            sameFormatAt (formats value) k L i
            = sameFormatAt (formats value') k L i) as Hguard.
  { intros k L i Hi. unfold sameFormatAt. by rewrite (Hsame i Hi). }
  destruct (find (formatsAt (formats value') s) (type format)) as [L|] eqn:Hf.
  - destruct (getFormatBoundary_found value' format s e L _ (conj Hf eq_refl))
      as (s' & e' & -> & Hs' & He' & Hback & Hfwd & Hstop & Hstop').
    set (k := indexOf (default [] (formatsAt (formats value') s)) L) in *.
    apply (getFormatBoundary_exact value format s e L k s' e').
    + split; [by rewrite Hsame by lia|]. unfold k. by rewrite Hsame by lia.
    + exact Hs'.
    + exact He'.
    + intros j Hj. rewrite Hguard by lia. by apply Hback.
    + intros j Hj. rewrite Hguard by lia. by apply Hfwd.
    + rewrite Hguard by lia. exact Hstop.
    + rewrite Hguard by lia. exact Hstop'.
  - rewrite (getFormatBoundary_null value' format s e Hf).
    apply getFormatBoundary_null. by rewrite Hsame by lia.
Qed.

(** A selection over ["abcd"] from 0 to 2 with a link on the first character
    only, or on all of them: the characters at 1 and 2 make no difference,
    and the range reaches index 3 in both cases. *)
Lemma getFormatBoundary_ignores_inside_witness :
  getFormatBoundary
    (mkValue [Some [mkLink 1 "u"]; None; None; None] "abcd" 0 2 [])
    linkSelector 0 2
  = getFormatBoundary
      (mkValue [Some [mkLink 1 "u"]; Some [mkLink 1 "u"];
                Some [mkLink 1 "u"]; None] "abcd" 0 2 [])
      linkSelector 0 2.
Proof.
  apply getFormatBoundary_ignores_inside.
  intros i Hi.
  assert (i <= 0 ∨ 3 <= i) as [H|H] by lia.
  - destruct (decide (i = 0)) as [->|]; [reflexivity|].
    unfold formatsAt, js_index. case_decide; [lia | reflexivity].
  - destruct (decide (i = 3)) as [->|]; [reflexivity|].
    unfold formatsAt, js_index. case_decide; [|reflexivity].
    rewrite !lookup_ge_None_2; [reflexivity | cbn; lia | cbn; lia].
Defined.

Example selection_end_unchecked :
  getFormatBoundary
    (mkValue [Some [mkLink 1 "u"]; None; None; None] "abcd" 0 2 [])
    linkSelector 0 2
  = {| bstart := Some 0; bend := Some 3 |}.
Proof. vm_compute. reflexivity. Qed.

(** ** Further properties of onChangeLink *)

Lemma bind_throw {B} (v : jsval) (k : jsval → Eff B) :
  lengthOf v = None → (js_length v ≫= k) = ([], Throw "TypeError").
Proof. intros H. unfold js_length. rewrite H. reflexivity. Qed.

(** The three ways a run of [onChangeLink] can go. *)
Lemma onChangeLink_cases D props nextLinkValue nextValue :
  let merged := spread (default ∅ nextLinkValue) nextValue in
  let lv := linkValue D props nextLinkValue in
  let newUrl := Deps.prependHTTP D (get merged "url") in
  let newText :=
    js_or (js_or (get merged "text") (get merged "title")) newUrl in
  let run := onChangeLink D props nextLinkValue nextValue in
  (didToggleSettingForNewLink lv merged = true
   ∧ run = ([SetNextLinkValue (Some merged)], Normal tt))
  ∨ (didToggleSettingForNewLink lv merged = false
     ∧ lengthOf newText = None
     ∧ run = ([SetNextLinkValue None], Throw "TypeError"))
  ∨ (didToggleSettingForNewLink lv merged = false
     ∧ ∃ len,
         lengthOf newText = Some len
         ∧ run
           = ((SetNextLinkValue None
               :: OnChange
                    (committedValue D props
                       (Deps.createLinkFormat D
                          (linkFormatOptions newUrl merged))
                       newText len)
               :: (if didToggleSetting lv merged then []
                   else [StopAddingLink])
               ++ [Speak
                     (Deps.translate D
                        (if negb (Deps.isValidHref D newUrl)
                         then invalidWarning
                         else if isActive props then "Link edited."
                         else "Link inserted."))
                     "assertive"])%list,
              Normal tt)).
Proof.
  intros merged lv newUrl newText run.
  destruct (didToggleSettingForNewLink lv merged) eqn:Hheld.
  - left. split; [reflexivity|]. unfold run, onChangeLink.
    fold merged lv. cbv zeta. rewrite Hheld. reflexivity.
  - right. destruct (lengthOf newText) as [len|] eqn:Hlen.
    + right. split; [reflexivity|]. exists len. split; [reflexivity|].
      by apply onChangeLink_commit.
    + left. split; [reflexivity|]. split; [reflexivity|].
      unfold run, onChangeLink. fold merged lv. cbv zeta. rewrite Hheld.
      rewrite bind_emit. fold newUrl newText.
      destruct (Deps.isCollapsed D (value props) && negb (isActive props));
        rewrite (bind_throw _ _ Hlen); reflexivity.
Qed.

Lemma lengthOf_None (v : jsval) :
  lengthOf v = None ↔ v = JUndefined ∨ v = JNull.
Proof.
  destruct v; cbn; split; try discriminate; try tauto;
    intros [H|H]; discriminate.
Qed.

Lemma didToggleSetting_true lv merged :
  didToggleSetting lv merged = true
  ↔ get lv "opensInNewTab" ≠ get merged "opensInNewTab"
    ∧ get lv "url" = get merged "url".
Proof.
  unfold didToggleSetting, strict_eq.
  rewrite andb_true_iff, negb_true_iff, bool_decide_eq_false,
    bool_decide_eq_true. reflexivity.
Qed.

Lemma didToggleSettingForNewLink_true lv merged :
  didToggleSettingForNewLink lv merged = true
  ↔ get lv "opensInNewTab" ≠ get merged "opensInNewTab"
    ∧ get lv "url" = JUndefined ∧ get merged "url" = JUndefined.
Proof.
  unfold didToggleSettingForNewLink, strict_eq at 1.
  rewrite andb_true_iff, didToggleSetting_true, bool_decide_eq_true.
  split.
  - intros [[Hflag Hurl] Hnone]. rewrite Hnone in Hurl. tauto.
  - intros (Hflag & Hlv & Hm). rewrite Hlv, Hm. tauto.
Qed.

(** X6.  Pending settings.  A run leaves pending settings behind exactly when
    the merged change and the current link value both have no URL and differ
    in the setting; the pending settings are then the merged change, and the
    run has called nothing but the state setter.  So pending settings never
    hold a URL, and none are kept once a URL is there. *)
Theorem onChangeLink_pending D props nextLinkValue nextValue pending :
  let merged := spread (default ∅ nextLinkValue) nextValue in
  let lv := linkValue D props nextLinkValue in
  let run := onChangeLink D props nextLinkValue nextValue in
  (stateAfter nextLinkValue (trace run) = Some pending
   ↔ pending = merged
     ∧ get lv "opensInNewTab" ≠ get merged "opensInNewTab"
     ∧ get lv "url" = JUndefined ∧ get merged "url" = JUndefined)
  ∧ (stateAfter nextLinkValue (trace run) = Some pending →
     run = ([SetNextLinkValue (Some pending)], Normal tt)
     ∧ get pending "url" = JUndefined).
Proof.
  intros merged lv run.
  pose proof (onChangeLink_cases D props nextLinkValue nextValue) as Hcases.
  cbv zeta in Hcases. fold merged lv run in Hcases.
  destruct Hcases as [[Hheld Hrun]|[(Hheld & _ & Hrun)|(Hheld & len & _ & Hrun)]].
  - rewrite Hrun. cbn. apply didToggleSettingForNewLink_true in Hheld.
    split.
    + split; [intros [= <-]; tauto | intros (-> & _); reflexivity].
    + intros [= <-]. tauto.
  - rewrite Hrun. cbn. split; [|discriminate]. split; [discriminate|].
    intros (_ & H). apply didToggleSettingForNewLink_true in H. congruence.
  - assert (stateAfter nextLinkValue (trace run) = None) as ->.
    { rewrite Hrun. unfold trace, stateAfter. cbn.
      by destruct (didToggleSetting lv merged). }
    split; [|discriminate]. split; [discriminate|].
    intros (_ & H). apply didToggleSettingForNewLink_true in H. congruence.
Qed.

Lemma onChangeLink_pending_witness :
  let toggled :=
    <["opensInNewTab" := JBool true]>
      (linkValue SpecModel.deps insertProps None) in
  onChangeLink SpecModel.deps insertProps None toggled
    = ([SetNextLinkValue (Some toggled)], Normal tt)
  ∧ get toggled "url" = JUndefined.
Proof.
  cbv zeta.
  apply (proj2 (onChangeLink_pending SpecModel.deps insertProps None
                  (<["opensInNewTab" := JBool true]>
                     (linkValue SpecModel.deps insertProps None))
                  (<["opensInNewTab" := JBool true]>
                     (linkValue SpecModel.deps insertProps None)))).
  vm_compute. reflexivity.
Defined.

(** The calls of the state setter in a trace. *)
Lemma stops_in_commit (toggled : bool) (v : RichTextValue) (m : string) :
  StopAddingLink
    ∈ (SetNextLinkValue None :: OnChange v
       :: (if toggled then [] else [StopAddingLink])
       ++ [Speak m "assertive"])%list
  ↔ toggled = false.
Proof.
  destruct toggled; cbn; rewrite !elem_of_cons, ?elem_of_nil;
    split; [|discriminate| |]; try tauto.
  intros [H|[H|[H|H]]]; [discriminate..|contradiction].
Qed.

(** X7.  Every run calls the state setter first and exactly once, calls
    [onChange] at most once, and speaks exactly as many announcements as it
    committed values; [stopAddingLink] is called only in a run that
    committed a value. *)
Theorem onChangeLink_discipline D props nextLinkValue nextValue :
  let run := onChangeLink D props nextLinkValue nextValue in
  (∃ next rest,
     trace run = SetNextLinkValue next :: rest
     ∧ ∀ next', SetNextLinkValue next' ∉ rest)
  ∧ (length (committed (trace run)) <= 1)%nat
  ∧ length (spoken (trace run)) = length (committed (trace run))
  ∧ (StopAddingLink ∈ trace run → length (committed (trace run)) = 1%nat).
Proof.
  intros run.
  pose proof (onChangeLink_cases D props nextLinkValue nextValue) as Hcases.
  cbv zeta in Hcases. fold run in Hcases.
  destruct Hcases as [[_ Hrun]|[(_ & _ & Hrun)|(_ & len & _ & Hrun)]];
    rewrite Hrun; unfold trace; cbn [fst].
  - split; [eexists _, []; split; [reflexivity|]; intros ? []%elem_of_nil|].
    cbn. split; [lia|]. split; [reflexivity|].
    intros [H|[]%elem_of_nil]%elem_of_cons. discriminate.
  - split; [eexists _, []; split; [reflexivity|]; intros ? []%elem_of_nil|].
    cbn. split; [lia|]. split; [reflexivity|].
    intros [H|[]%elem_of_nil]%elem_of_cons. discriminate.
  - split.
    + eexists _, _. split; [reflexivity|]. intros next'.
      destruct (didToggleSetting _ _); cbn;
        rewrite !elem_of_cons, ?elem_of_nil; intros H;
        repeat destruct H as [H|H]; try discriminate; contradiction.
    + destruct (didToggleSetting _ _); cbn; (split; [lia|]);
        (split; [reflexivity|]); reflexivity.
Qed.

(** X8.  The one failing path.  A run throws exactly when the change is not
    held back and the text, the title and the normalised URL leave the new
    text [undefined] or [null]; reading its length is then a [TypeError].
    The pending settings are cleared before; [onChange], [stopAddingLink]
    and [speak] are not reached. *)
Theorem onChangeLink_throws D props nextLinkValue nextValue :
  let merged := spread (default ∅ nextLinkValue) nextValue in
  let lv := linkValue D props nextLinkValue in
  let newText :=
    js_or (js_or (get merged "text") (get merged "title"))
      (Deps.prependHTTP D (get merged "url")) in
  let run := onChangeLink D props nextLinkValue nextValue in
  (completion run ≠ Normal tt
   ↔ didToggleSettingForNewLink lv merged = false
     ∧ (newText = JUndefined ∨ newText = JNull))
  ∧ (completion run ≠ Normal tt →
     run = ([SetNextLinkValue None], Throw "TypeError")).
Proof.
  intros merged lv newText run.
  pose proof (onChangeLink_cases D props nextLinkValue nextValue) as Hcases.
  cbv zeta in Hcases. fold merged lv newText run in Hcases.
  rewrite <- lengthOf_None.
  destruct Hcases as [[Hheld Hrun]|[(Hheld & Hlen & Hrun)|(Hheld & len & Hlen & Hrun)]];
    rewrite Hrun; unfold completion; cbn [snd].
  - split; [|congruence]. split; [congruence|]. intros [H _]. congruence.
  - split; [|reflexivity]. split; [tauto | discriminate].
  - split; [|congruence]. split; [congruence|]. intros [_ H]. congruence.
Qed.

(** A change that repeats the current setting while no URL is there: not
    held back, and without text, title or URL there is no new text. *)
Lemma onChangeLink_throws_witness :
  onChangeLink SpecModel.deps insertProps None
    (<["opensInNewTab" := JBool false]>
       (linkValue SpecModel.deps insertProps None))
  = ([SetNextLinkValue None], Throw "TypeError").
Proof.
  apply (proj2 (onChangeLink_throws SpecModel.deps insertProps None
                  (<["opensInNewTab" := JBool false]>
                     (linkValue SpecModel.deps insertProps None)))).
  vm_compute. discriminate.
Defined.

(** X9.  The setting of a link that has a URL is applied at once.  The change
    flips the setting of the current link value and nothing else: nothing is
    held back, the value is committed with a link format built with the new
    flag, an announcement is spoken, and [stopAddingLink] is not called. *)
Theorem onChangeLink_toggle_applied D props nextLinkValue (flag : jsval)
    (url newUrl : string) :
  let lv := linkValue D props nextLinkValue in
  let toggled := <["opensInNewTab" := flag]> lv in
  get lv "url" = JStr url →
  flag ≠ get lv "opensInNewTab" →
  Deps.prependHTTP D (JStr url) = JStr newUrl →
  ∃ newText len message,
    onChangeLink D props nextLinkValue toggled
      = ([SetNextLinkValue None;
          OnChange
            (committedValue D props
               (Deps.createLinkFormat D
                  (linkFormatOptions (JStr newUrl) toggled))
               newText len);
          Speak message "assertive"],
         Normal tt)
    ∧ opt_opensInNewWindow (linkFormatOptions (JStr newUrl) toggled) = flag.
Proof.
  intros lv toggled Hurl Hflag Hprepend.
  pose proof (spread_linkValue_insert D props nextLinkValue
                "opensInNewTab" flag) as Hmerged.
  fold lv toggled in Hmerged.
  assert (get toggled "opensInNewTab" = flag) as Hflag'
    by apply get_insert_eq.
  assert (get toggled "url" = JStr url) as Hurl'
    by (unfold toggled; rewrite get_insert_ne by done; exact Hurl).
  destruct (lengthOf_js_or (js_or (get toggled "text") (get toggled "title"))
              newUrl) as [len Hlen].
  pose proof (onChangeLink_commit D props nextLinkValue toggled
                (js_or (js_or (get toggled "text") (get toggled "title"))
                   (JStr newUrl)) len) as Hrun.
  cbv zeta in Hrun. fold lv in Hrun. rewrite Hmerged, Hurl', Hprepend in Hrun.
  specialize (Hrun (didToggleSettingForNewLink_url _ _ _ Hurl') eq_refl Hlen).
  assert (didToggleSetting lv toggled = true) as Htoggle.
  { apply didToggleSetting_true. rewrite Hflag', Hurl'. split; congruence. }
  rewrite Htoggle in Hrun.
  eexists _, len, _. split; [exact Hrun | exact Hflag'].
Qed.

Lemma onChangeLink_toggle_applied_witness :
  let props := editProps "http://a.b" in
  let toggled :=
    <["opensInNewTab" := JBool true]> (linkValue SpecModel.deps props None) in
  ∃ newText len message,
    onChangeLink SpecModel.deps props None toggled
      = ([SetNextLinkValue None;
          OnChange
            (committedValue SpecModel.deps props
               (SpecModel.createLinkFormat
                  (linkFormatOptions (JStr "http://a.b") toggled))
               newText len);
          Speak message "assertive"],
         Normal tt)
    ∧ opt_opensInNewWindow (linkFormatOptions (JStr "http://a.b") toggled)
      = JBool true.
Proof.
  cbv zeta.
  apply (onChangeLink_toggle_applied SpecModel.deps (editProps "http://a.b")
           None (JBool true) "http://a.b" "http://a.b");
    [vm_compute; reflexivity | vm_compute; discriminate
    | vm_compute; reflexivity].
Defined.

(** X10.  [stopAddingLink] is called exactly in the runs that commit a value
    for a change that is not a bare toggle: the URL differs from the current
    one, or the setting is the current one. *)
Theorem onChangeLink_stops_iff D props nextLinkValue nextValue :
  let merged := spread (default ∅ nextLinkValue) nextValue in
  let lv := linkValue D props nextLinkValue in
  let run := onChangeLink D props nextLinkValue nextValue in
  StopAddingLink ∈ trace run
  ↔ committed (trace run) ≠ []
    ∧ (get lv "url" ≠ get merged "url"
       ∨ get lv "opensInNewTab" = get merged "opensInNewTab").
Proof.
  intros merged lv run.
  pose proof (onChangeLink_cases D props nextLinkValue nextValue) as Hcases.
  cbv zeta in Hcases. fold merged lv run in Hcases.
  destruct Hcases as [[_ Hrun]|[(_ & _ & Hrun)|(_ & len & _ & Hrun)]];
    rewrite Hrun; unfold trace; cbn [fst].
  - cbn. split; [|tauto].
    intros [H|[]%elem_of_nil]%elem_of_cons. discriminate.
  - cbn. split; [|tauto].
    intros [H|[]%elem_of_nil]%elem_of_cons. discriminate.
  - rewrite stops_in_commit.
    assert (committed
              (SetNextLinkValue None
               :: OnChange
                    (committedValue D props
                       (Deps.createLinkFormat D
                          (linkFormatOptions
                             (Deps.prependHTTP D (get merged "url")) merged))
                       (js_or (js_or (get merged "text") (get merged "title"))
                          (Deps.prependHTTP D (get merged "url"))) len)
               :: (if didToggleSetting lv merged then [] else [StopAddingLink])
               ++ [Speak
                     (Deps.translate D
                        (if negb (Deps.isValidHref D
                                    (Deps.prependHTTP D (get merged "url")))
                         then invalidWarning
                         else if isActive props then "Link edited."
                         else "Link inserted.")) "assertive"])%list ≠ [])
      as Hcommitted by (cbn; discriminate).
    destruct (didToggleSetting lv merged) eqn:Htoggle.
    + apply didToggleSetting_true in Htoggle as [Hflag Hurl].
      split; [discriminate|]. intros [_ [H|H]]; congruence.
    + split; [|reflexivity]. intros _. split; [exact Hcommitted|].
      destruct (decide (get lv "url" = get merged "url")) as [Heq|Hne];
        [|left; exact Hne].
      right. destruct (decide (get lv "opensInNewTab"
                               = get merged "opensInNewTab")) as [|Hne];
        [assumption|].
      assert (didToggleSetting lv merged = true) as H
        by (apply didToggleSetting_true; tauto).
      congruence.
Qed.

(** X11.  The id option handed to [createLinkFormat] is [undefined] when the
    change has no id or a [null] id, and a string otherwise: a number is
    written out in decimal. *)
Theorem linkFormatOptions_id (newUrl : jsval) (nextValue : jsobj) :
  (opt_id (linkFormatOptions newUrl nextValue) = JUndefined
   ↔ get nextValue "id" = JUndefined ∨ get nextValue "id" = JNull)
  ∧ (opt_id (linkFormatOptions newUrl nextValue) = JUndefined
     ∨ ∃ s, opt_id (linkFormatOptions newUrl nextValue) = JStr s)
  ∧ ∀ n, get nextValue "id" = JNum n →
         opt_id (linkFormatOptions newUrl nextValue) = JStr (pretty n).
Proof.
  unfold linkFormatOptions. cbn [opt_id].
  destruct (get nextValue "id") as [| |[]|n|s]; cbn;
    (split; [split; [try discriminate; tauto
                    | intros [H|H]; try discriminate; reflexivity]|]);
    (split; [eauto|]); intros n' [=]; subst; reflexivity.
Qed.

Example linkFormatOptions_numeric_id :
  opt_id (linkFormatOptions (JStr "u") {[ "id" := JNum 42 ]}) = JStr "42".
Proof. vm_compute. reflexivity. Qed.

(** ** Properties of LinkControl *)

Lemma control_bind_emit {B} (ev : LinkControl.event)
    (k : unit → LinkControl.eff B) :
  (LinkControl.emit ev ≫= k) = (ev :: (k tt).1, (k tt).2).
Proof.
  unfold LinkControl.emit, mbind, LinkControl.eff_bind. by destruct (k tt).
Qed.

Lemma callbackEvents_call (tr : list Event) :
  LinkControl.callbackEvents (LinkControl.FromOnChange <$> tr) = tr.
Proof. induction tr as [|ev tr IH]; [reflexivity|]. cbn. f_equal. exact IH. Qed.

Lemma applyEvents_call st (tr : list Event) :
  LinkControl.applyEvents st (LinkControl.FromOnChange <$> tr) = st.
Proof.
  unfold LinkControl.applyEvents. induction tr as [|ev tr IH]; [reflexivity|].
  exact IH.
Qed.

Lemma callbackEvents_app (tr tr' : list LinkControl.event) :
  LinkControl.callbackEvents (tr ++ tr')
  = (LinkControl.callbackEvents tr ++ LinkControl.callbackEvents tr')%list.
Proof. apply omap_app. Qed.

Lemma applyEvents_app st (tr tr' : list LinkControl.event) :
  LinkControl.applyEvents st (tr ++ tr')
  = LinkControl.applyEvents (LinkControl.applyEvents st tr) tr'.
Proof. apply fold_left_app. Qed.

(** A call of the [onChange] prop followed by [stopEditing]. *)
Lemma call_then_stop (m : Eff unit) (focusWithin : bool) :
  (LinkControl.call m;; LinkControl.stopEditing focusWithin)
  = match m.2 with
    | Normal _ =>
        ((LinkControl.FromOnChange <$> m.1)
         ++ [LinkControl.SetEndingEditWithFocus focusWithin;
             LinkControl.SetIsEditingLink false],
         Normal tt)%list
    | Throw e => (LinkControl.FromOnChange <$> m.1, Throw e)
    end.
Proof. destruct m as [tr [[]|e]]; reflexivity. Qed.

(** X12.  Submitting.  When neither the URL nor the text differs from the
    value, [onChange] is not called and the control only leaves its editing
    mode.  Otherwise [onChange] is called once with an object that holds the
    current input as [url] and the text field as [text] and nothing else;
    when that call returns the control leaves its editing mode, and when it
    throws the state of the control is left as it was. *)
Theorem handleSubmitButton_calls p st focusWithin :
  let url := LinkControl.currentInputValue p st in
  let newText := LinkControl.internalTextValue st in
  let submitted : jsobj := <["url" := url]> (<["text" := newText]> ∅) in
  let run := LinkControl.handleSubmitButton p st focusWithin in
  (url = optGet (LinkControl.value p) "url"
   ∧ newText = optGet (LinkControl.value p) "text" →
   run = ([LinkControl.SetEndingEditWithFocus focusWithin;
           LinkControl.SetIsEditingLink false], Normal tt))
  ∧ (url ≠ optGet (LinkControl.value p) "url"
     ∨ newText ≠ optGet (LinkControl.value p) "text" →
     LinkControl.callbackEvents run.1 = (LinkControl.onChange p submitted).1
     ∧ run.2 = (LinkControl.onChange p submitted).2
     ∧ dom submitted = {[ "url"; "text" ]}
     ∧ (run.2 = Normal tt →
        LinkControl.isEditingLink (LinkControl.applyEvents st run.1) = false)
     ∧ (run.2 ≠ Normal tt → LinkControl.applyEvents st run.1 = st)).
Proof.
  intros url newText submitted run. split.
  - intros [Hurl Htext]. unfold run, LinkControl.handleSubmitButton.
    fold url newText. rewrite <- Hurl, <- Htext, !strict_eq_refl. reflexivity.
  - intros Hchanged.
    assert (run = (LinkControl.call (LinkControl.onChange p submitted);;
                   LinkControl.stopEditing focusWithin)) as ->.
    { unfold run, LinkControl.handleSubmitButton. fold url newText submitted.
      destruct Hchanged as [H|H]; rewrite (strict_eq_ne _ _ H); cbn [negb orb];
        [reflexivity|by rewrite orb_true_r]. }
    rewrite call_then_stop.
    destruct (LinkControl.onChange p submitted) as [tr [[]|e]]; cbn [fst snd].
    + split.
      { rewrite callbackEvents_app, callbackEvents_call. apply app_nil_r. }
      split; [reflexivity|]. split; [unfold submitted; set_solver|].
      split; [|congruence]. intros _.
      rewrite applyEvents_app, applyEvents_call. reflexivity.
    + split; [apply callbackEvents_call|]. split; [reflexivity|].
      split; [unfold submitted; set_solver|]. split; [discriminate|].
      intros _. apply applyEvents_call.
Qed.

Lemma handleSubmitButton_calls_witness :
  let p := linkControlProps SpecModel.deps (editProps "http://a.b") None in
  LinkControl.handleSubmitButton p (LinkControl.initialState p) true
  = ([LinkControl.SetEndingEditWithFocus true;
      LinkControl.SetIsEditingLink false], Normal tt).
Proof.
  cbv zeta.
  apply (proj1 (handleSubmitButton_calls
                  (linkControlProps SpecModel.deps (editProps "http://a.b")
                     None)
                  (LinkControl.initialState
                     (linkControlProps SpecModel.deps (editProps "http://a.b")
                        None)) true)).
  split; vm_compute; reflexivity.
Defined.

(** Without pending settings the setting of the link value is a boolean. *)
Lemma linkValue_setting D props :
  get (linkValue D props None) "opensInNewTab"
  = JBool (strict_eq (get (activeAttributes props) "target") (JStr "_blank")).
Proof.
  unfold linkValue. rewrite get_spread. cbn [default].
  rewrite lookup_empty, !get_insert_ne by done. apply get_insert_eq.
Qed.

(** X13.  Editing the text of a link through the submit button.  No pending
    settings, the input holds the URL of the link and the text field a new,
    non-empty text: the value is committed with the new text and an
    announcement is spoken, the control leaves its editing mode, and
    [stopAddingLink] is not called, since the submitted object has no
    [opensInNewTab] and so reads as a change of the setting. *)
Theorem handleSubmitButton_text_only D props st focusWithin
    (url newText : string) :
  let p := linkControlProps D props None in
  let lv := linkValue D props None in
  let submitted : jsobj :=
    <["url" := JStr url]> (<["text" := JStr newText]> ∅) in
  let newUrl := Deps.prependHTTP D (JStr url) in
  get lv "url" = JStr url →
  LinkControl.internalInputValue st = JStr url →
  LinkControl.internalTextValue st = JStr newText →
  newText ≠ "" →
  get lv "text" ≠ JStr newText →
  LinkControl.handleSubmitButton p st focusWithin
  = ([LinkControl.FromOnChange (SetNextLinkValue None);
      LinkControl.FromOnChange
        (OnChange
           (committedValue D props
              (Deps.createLinkFormat D (linkFormatOptions newUrl submitted))
              (JStr newText) (JNum (Z.of_nat (String.length newText)))));
      LinkControl.FromOnChange
        (Speak
           (Deps.translate D
              (if negb (Deps.isValidHref D newUrl) then invalidWarning
               else if isActive props then "Link edited."
               else "Link inserted."))
           "assertive");
      LinkControl.SetEndingEditWithFocus focusWithin;
      LinkControl.SetIsEditingLink false],
     Normal tt).
Proof.
  intros p lv submitted newUrl Hurl Hinput Htext Hne Hdiff.
  assert (spread ∅ submitted = submitted) as Hspread
    by (unfold spread; apply (right_id_L ∅ (∪))).
  assert (get submitted "url" = JStr url) as Hsurl by apply get_insert_eq.
  assert (get submitted "text" = JStr newText) as Hstext
    by (unfold submitted; rewrite get_insert_ne by done; apply get_insert_eq).
  assert (get submitted "opensInNewTab" = JUndefined) as Hsflag
    by (unfold submitted; rewrite !get_insert_ne by done; reflexivity).
  assert (didToggleSetting lv submitted = true) as Htoggle.
  { apply didToggleSetting_true. unfold lv. rewrite linkValue_setting.
    rewrite Hsflag. fold lv. rewrite Hurl, Hsurl. split; congruence. }
  pose proof (onChangeLink_commit D props None submitted (JStr newText)
                (JNum (Z.of_nat (String.length newText)))) as Hrun.
  cbv zeta in Hrun. cbn [default] in Hrun. fold lv in Hrun.
  rewrite Hspread, Hsurl, Hstext, Htoggle in Hrun. fold newUrl in Hrun.
  specialize (Hrun (didToggleSettingForNewLink_url _ _ _ Hsurl)).
  assert (JStr newText = js_or (js_or (JStr newText) (get submitted "title"))
                           newUrl) as Hnew.
  { unfold js_or. cbn [truthy]. apply String.eqb_neq in Hne.
    rewrite Hne. cbn [negb truthy]. by rewrite Hne. }
  specialize (Hrun Hnew eq_refl).
  unfold LinkControl.handleSubmitButton, LinkControl.currentInputValue.
  cbn [p linkControlProps LinkControl.inputValue LinkControl.value
         LinkControl.onChange optGet].
  rewrite Hinput, Htext. fold lv.
  change (js_or (JStr "") (JStr url)) with (JStr url).
  rewrite (strict_eq_ne (JStr newText) (get lv "text")) by congruence.
  rewrite orb_true_r. fold submitted. rewrite call_then_stop, Hrun.
  reflexivity.
Qed.

Lemma handleSubmitButton_text_only_witness :
  let D := SpecModel.deps in
  let props := editProps "http://a.b" in
  let st :=
    LinkControl.mkState (JStr "http://a.b") (JStr "new") true false in
  LinkControl.callbackEvents
    (LinkControl.handleSubmitButton (linkControlProps D props None) st true).1
  = trace (onChangeLink D props None
             (<["url" := JStr "http://a.b"]> (<["text" := JStr "new"]> ∅)))
  ∧ StopAddingLink
    ∉ LinkControl.callbackEvents
        (LinkControl.handleSubmitButton (linkControlProps D props None)
           st true).1.
Proof.
  cbv zeta.
  rewrite (handleSubmitButton_text_only SpecModel.deps
             (editProps "http://a.b")
             (LinkControl.mkState (JStr "http://a.b") (JStr "new") true false)
             true "http://a.b" "new");
    [ | vm_compute; reflexivity | reflexivity | reflexivity | discriminate
      | vm_compute; discriminate].
  split; [vm_compute; reflexivity|].
  cbn. rewrite !elem_of_cons, elem_of_nil.
  intros [H|[H|[H|H]]]; [discriminate..|contradiction].
Defined.

(** X14.  Picking a suggestion while the text field is empty.  A caret
    outside of any link, no pending settings, a suggestion with a URL and a
    title: the title becomes the text of the inserted link, the link format
    is built for the normalised URL of the suggestion, [stopAddingLink] is
    called and the control leaves its editing mode. *)
Theorem handleSelectSuggestion_title D props st focusWithin
    (suggestion : jsobj) (url title : string) :
  let p := linkControlProps D props None in
  let lv := linkValue D props None in
  let selected := <["text" := LinkControl.internalTextValue st]> suggestion in
  let newUrl := Deps.prependHTTP D (JStr url) in
  Deps.isCollapsed D (value props) = true →
  isActive props = false →
  get lv "url" ≠ JStr url →
  get suggestion "url" = JStr url →
  get suggestion "title" = JStr title →
  title ≠ "" →
  truthy (LinkControl.internalTextValue st) = false →
  LinkControl.handleSelectSuggestion p st focusWithin suggestion
  = ([LinkControl.FromOnChange (SetNextLinkValue None);
      LinkControl.FromOnChange
        (OnChange
           (Deps.insert D (value props)
              (Deps.applyFormat D (Deps.create D (JStr title))
                 (Deps.createLinkFormat D (linkFormatOptions newUrl selected))
                 (JNum 0) (JNum (Z.of_nat (String.length title))))));
      LinkControl.FromOnChange StopAddingLink;
      LinkControl.FromOnChange
        (Speak
           (Deps.translate D
              (if negb (Deps.isValidHref D newUrl) then invalidWarning
               else "Link inserted."))
           "assertive");
      LinkControl.SetEndingEditWithFocus focusWithin;
      LinkControl.SetIsEditingLink false],
     Normal tt).
Proof.
  intros p lv selected newUrl Hcaret Hactive Hlvurl Hurl Htitle Hne Htext.
  assert (spread ∅ selected = selected) as Hspread
    by (unfold spread; apply (right_id_L ∅ (∪))).
  assert (get selected "url" = JStr url) as Hsurl
    by (unfold selected; rewrite get_insert_ne by done; exact Hurl).
  assert (get selected "title" = JStr title) as Hstitle
    by (unfold selected; rewrite get_insert_ne by done; exact Htitle).
  assert (get selected "text" = LinkControl.internalTextValue st) as Hstext
    by apply get_insert_eq.
  assert (didToggleSetting lv selected = false) as Htoggle.
  { destruct (didToggleSetting lv selected) eqn:H; [|reflexivity].
    apply didToggleSetting_true in H as [_ H]. congruence. }
  pose proof (onChangeLink_commit D props None selected (JStr title)
                (JNum (Z.of_nat (String.length title)))) as Hrun.
  cbv zeta in Hrun. cbn [default] in Hrun. fold lv in Hrun.
  rewrite Hspread, Hsurl, Hstext, Hstitle, Htoggle in Hrun.
  fold newUrl in Hrun.
  specialize (Hrun (didToggleSettingForNewLink_url _ _ _ Hsurl)).
  assert (JStr title
          = js_or (js_or (LinkControl.internalTextValue st) (JStr title))
              newUrl) as Hnew.
  { unfold js_or. rewrite Htext. cbn [truthy]. apply String.eqb_neq in Hne.
    by rewrite Hne. }
  specialize (Hrun Hnew eq_refl).
  unfold committedValue in Hrun. rewrite Hcaret, Hactive in Hrun.
  cbn [negb andb] in Hrun.
  unfold LinkControl.handleSelectSuggestion.
  cbn [p linkControlProps LinkControl.onChange]. fold selected.
  rewrite call_then_stop, Hrun.
  destruct (Deps.isValidHref D newUrl); reflexivity.
Qed.

Lemma handleSelectSuggestion_title_witness :
  let D := SpecModel.deps in
  let suggestion : jsobj :=
    <["url" := JStr "example.com"]> (<["title" := JStr "Example"]> ∅) in
  let st := LinkControl.initialState (linkControlProps D insertProps None) in
  (λ v, (text v, start v))
    <$> committed
          (LinkControl.callbackEvents
             (LinkControl.handleSelectSuggestion
                (linkControlProps D insertProps None) st false suggestion).1)
  = [("aExampleb", 8)].
Proof.
  cbv zeta.
  rewrite (handleSelectSuggestion_title SpecModel.deps insertProps
             (LinkControl.initialState
                (linkControlProps SpecModel.deps insertProps None))
             false
             (<["url" := JStr "example.com"]> (<["title" := JStr "Example"]> ∅))
             "example.com" "Example");
    [vm_compute; reflexivity | reflexivity | reflexivity
    | vm_compute; discriminate | reflexivity | reflexivity | discriminate
    | reflexivity].
Defined.

(** X15.  What is rendered.  The search input and the link preview are never
    rendered together; unless a page is being created one of them is
    rendered; the unlink button appears only beside the link preview; and
    while a page is being created none of the three is rendered. *)
Theorem render_conditions p st isCreatingPage :
  LinkControl.showsSearchInput p st isCreatingPage
    && LinkControl.showsLinkPreview p st isCreatingPage = false
  ∧ (isCreatingPage = false →
     LinkControl.showsSearchInput p st isCreatingPage
       || LinkControl.showsLinkPreview p st isCreatingPage = true)
  ∧ (LinkControl.shownUnlinkControl p st isCreatingPage = true →
     LinkControl.showsLinkPreview p st isCreatingPage = true)
  ∧ (isCreatingPage = true →
     LinkControl.showsSearchInput p st isCreatingPage = false
     ∧ LinkControl.showsLinkPreview p st isCreatingPage = false
     ∧ LinkControl.shownUnlinkControl p st isCreatingPage = false).
Proof.
  unfold LinkControl.showsSearchInput, LinkControl.showsLinkPreview,
    LinkControl.shownUnlinkControl.
  destruct (LinkControl.isEditingLink st), (given (LinkControl.value p)),
    (LinkControl.onRemove p), isCreatingPage; cbn; repeat split;
    congruence.
Qed.

(** X16.  The two state effects settle in one round.  Once their updates are
    applied, the editing mode is the forced one when a mode is forced, the
    text field holds the text of the value when that text is truthy, and
    running both effects again calls nothing. *)
Theorem effects_settle p st :
  let st' :=
    LinkControl.applyEvents st
      ((LinkControl.syncForcedEditing p st).1
       ++ (LinkControl.syncText p st).1)%list in
  (∀ forced, LinkControl.forceIsEditingLink p = Some forced →
             LinkControl.isEditingLink st' = forced)
  ∧ (truthy (optGet (LinkControl.value p) "text") = true →
     LinkControl.internalTextValue st'
     = optGet (LinkControl.value p) "text")
  ∧ LinkControl.syncForcedEditing p st' = ([], Normal tt)
  ∧ LinkControl.syncText p st' = ([], Normal tt).
Proof.
  unfold LinkControl.syncForcedEditing, LinkControl.syncText.
  destruct (LinkControl.forceIsEditingLink p) as [forced|];
    destruct (truthy (optGet (LinkControl.value p) "text")) eqn:Htruthy;
    cbn [andb];
    try (destruct (bool_decide (forced = LinkControl.isEditingLink st))
           eqn:Hforced; cbn [negb]);
    try (destruct (strict_eq (optGet (LinkControl.value p) "text")
                     (LinkControl.internalTextValue st)) eqn:Hsame;
         cbn [negb]);
    cbn; rewrite ?Htruthy; cbn [andb];
    try (apply bool_decide_eq_true in Hforced);
    try (unfold strict_eq in Hsame; apply bool_decide_eq_true in Hsame);
    rewrite ?strict_eq_refl, ?bool_decide_eq_true_2 by done; cbn;
    rewrite ?Hsame, ?strict_eq_refl; cbn;
    repeat split; try congruence; try discriminate;
    try (intros ? [= <-]; congruence).
Qed.

(** X17.  The state a control starts with needs no correction: on the
    initial state both state effects call nothing. *)
Theorem effects_idle_on_mount p :
  LinkControl.syncForcedEditing p (LinkControl.initialState p)
    = ([], Normal tt)
  ∧ LinkControl.syncText p (LinkControl.initialState p) = ([], Normal tt).
Proof.
  unfold LinkControl.syncForcedEditing, LinkControl.syncText,
    LinkControl.initialState. cbn.
  split.
  - destruct (LinkControl.forceIsEditingLink p); [|reflexivity].
    by rewrite bool_decide_eq_true_2.
  - unfold js_or.
    destruct (truthy (optGet (LinkControl.value p) "text")); [|reflexivity].
    by rewrite strict_eq_refl.
Qed.

(** X18.  Submitting a control that was just mounted, without an input prop.
    The state starts from the URL and the text of the value, with [''] for a
    missing one.  When the value has both (a truthy value or ['']), nothing
    differs and [onChange] is not called; when one is missing, [onChange] is
    called with [''] in its place. *)
Theorem handleSubmitButton_on_mount p focusWithin :
  let url := optGet (LinkControl.value p) "url" in
  let text := optGet (LinkControl.value p) "text" in
  let present v := truthy v || strict_eq v (JStr "") in
  let submitted : jsobj :=
    <["url" := js_or url (JStr "")]> (<["text" := js_or text (JStr "")]> ∅) in
  let run :=
    LinkControl.handleSubmitButton p (LinkControl.initialState p)
      focusWithin in
  truthy (LinkControl.inputValue p) = false →
  (present url && present text = true →
   run = ([LinkControl.SetEndingEditWithFocus focusWithin;
           LinkControl.SetIsEditingLink false], Normal tt))
  ∧ (present url && present text = false →
     run = (LinkControl.call (LinkControl.onChange p submitted);;
            LinkControl.stopEditing focusWithin)).
Proof.
  intros url text present submitted run Hinput.
  assert (∀ v, strict_eq (js_or v (JStr "")) v = present v) as Hpresent.
  { intros v. unfold present, js_or. destruct (truthy v) eqn:Hv.
    - by rewrite strict_eq_refl.
    - cbn [orb]. unfold strict_eq.
      destruct (decide (v = JStr "")) as [->|Hne].
      + by rewrite !bool_decide_eq_true_2.
      + rewrite !bool_decide_eq_false_2 by congruence. reflexivity. }
  assert (LinkControl.currentInputValue p (LinkControl.initialState p)
          = js_or url (JStr "")) as Hcurrent.
  { unfold LinkControl.currentInputValue. unfold js_or at 1.
    by rewrite Hinput. }
  unfold run, LinkControl.handleSubmitButton. rewrite Hcurrent.
  change (LinkControl.internalTextValue (LinkControl.initialState p))
    with (js_or text (JStr "")).
  fold url text submitted. rewrite !Hpresent.
  split; intros H.
  - apply andb_true_iff in H as [-> ->]. reflexivity.
  - apply andb_false_iff in H as [-> | ->]; cbn [negb orb];
      [reflexivity | by rewrite orb_true_r].
Qed.

(** A new link: the value that InlineLinkUI passes has no URL, and the
    submitted object holds [''] for it. *)
Lemma handleSubmitButton_on_mount_witness :
  let p := linkControlProps SpecModel.deps insertProps None in
  LinkControl.handleSubmitButton p (LinkControl.initialState p) false
  = (LinkControl.call
       (onChangeLink SpecModel.deps insertProps None
          (<["url" := JStr ""]> (<["text" := JStr ""]> ∅)));;
     LinkControl.stopEditing false).
Proof.
  cbv zeta.
  refine (proj2 (handleSubmitButton_on_mount
                   (linkControlProps SpecModel.deps insertProps None) false
                   _) _);
    vm_compute; reflexivity.
Defined.

Example empty_submit_on_new_link :
  let p := linkControlProps SpecModel.deps insertProps None in
  (λ v, text v)
    <$> committed
          (LinkControl.callbackEvents
             (LinkControl.handleSubmitButton p (LinkControl.initialState p)
                false).1)
  = ["ab"]
  ∧ spoken
      (LinkControl.callbackEvents
         (LinkControl.handleSubmitButton p (LinkControl.initialState p)
            false).1)
    = [invalidWarning].
Proof. cbv zeta. split; vm_compute; reflexivity. Qed.

(** ** The text range of InlineLinkUI *)

(** X19.  The range that InlineLinkUI hands to [slice].  For a selection it
    is the selection itself.  For a caret it is the null pair when the
    character at the caret has no link format, and when it has one a range
    of indices of the value that holds the character at the caret. *)
Theorem textRange_cases D props :
  (Deps.isCollapsed D (value props) = false →
   textRange D props
   = (Some (start (value props)), Some (end_ (value props))))
  ∧ (Deps.isCollapsed D (value props) = true →
     start (value props) = end_ (value props) →
     (textRange D props = (None, None)
      ∧ find (formatsAt (formats (value props)) (start (value props)))
          "core/link" = None)
     ∨ ∃ s e L,
         textRange D props = (Some s, Some e)
         ∧ find (formatsAt (formats (value props)) (start (value props)))
             "core/link" = Some L
         ∧ 0 <= s ∧ s <= start (value props) < e
         ∧ e <= Z.of_nat (length (formats (value props)))).
Proof.
  unfold textRange. split; intros Hcaret; rewrite Hcaret; [reflexivity|].
  intros Hsel. unfold getFormatBoundary_default. rewrite <- Hsel.
  set (c := start (value props)).
  destruct (find (formatsAt (formats (value props)) c) "core/link")
    as [L|] eqn:Hfind.
  - right.
    destruct (getFormatBoundary_found (value props) linkSelector c c L _
                (conj Hfind eq_refl))
      as (s & e & Heq & Hs & He & Hback & Hfwd & _ & _).
    exists s, e, L. rewrite Heq. split; [reflexivity|].
    split; [reflexivity|].
    pose proof (sameFormatAt_range _ _ _ _ (Hback s ltac:(lia))).
    pose proof (sameFormatAt_range _ _ _ _ (Hback c ltac:(lia))).
    split; [lia|]. split; [lia|].
    destruct (decide (e = c + 1)) as [->|Hne]; [lia|].
    pose proof (sameFormatAt_range _ _ _ _ (Hfwd (e - 1) ltac:(lia))). lia.
  - left. rewrite (getFormatBoundary_null (value props) linkSelector c c Hfind).
    split; reflexivity.
Qed.

Example textRange_of_scenes :
  textRange SpecModel.deps (editProps "http://a.b") = (Some 4, Some 7)
  ∧ textRange SpecModel.deps insertProps = (None, None).
Proof. split; vm_compute; reflexivity. Qed.
